(** * Shopping chatbot: intent extraction, product search and dialogue

    A shallow embedding of the conversational core of [app.py]:
    [find_product], [extract_filters], [search_products],
    [respond_like_bot], the "Compare Products" handler and
    [generate_reply], together with the pieces of the Python runtime
    they rest on (string methods, the [re] patterns they use,
    [difflib.get_close_matches], the conversions [int(str)] and
    [float(int)], the comparison of a numeric column with a [float]
    and the ["{:.2f}"] format).

    Text is modelled over the code points U+0000..U+00FF, one [ascii]
    per code point; this range is closed under [str.lower] and
    [str.strip].  Bot replies contain characters outside that range
    (emoji, typographic quotes); a reply is therefore kept as its UTF-8
    encoding in a [string]. *)

From Stdlib Require Import List String Ascii Bool Arith ZArith QArith Qabs Qpower Lia.
From Stdlib Require Import Permutation Sorted.
From Stdlib Require DecimalString Qcanon.
Import ListNotations.

Set Implicit Arguments.

Local Close Scope Q_scope.
Local Close Scope Z_scope.
Local Open Scope nat_scope.
Local Open Scope bool_scope.
Local Open Scope list_scope.

(* ================================================================== *)
(** ** Text: Python [str] over U+0000..U+00FF *)
(* ================================================================== *)

Module Text.

Definition text := list ascii.

(** A literal of the source. *)
Definition lit (s : string) : text := list_ascii_of_string s.

Definition code (c : ascii) : N := N_of_ascii c.

Definition between (lo hi n : N) : bool := (lo <=? n)%N && (n <=? hi)%N.

(** [\d] and [str.isdecimal]: only 0-9 below U+0100. *)
Definition is_digit (c : ascii) : bool := between 48 57 (code c).

(** [\s] and [str.isspace]: TAB LF VT FF CR, FS GS RS US, SPACE, NEL,
    NBSP. *)
Definition is_space (c : ascii) : bool :=
  let n := code c in
  between 9 13 n || between 28 31 n || (n =? 32)%N || (n =? 133)%N
  || (n =? 160)%N.

(** [\w]: alphanumerics (letters, and everything numeric such as the
    superscripts and the vulgar fractions) and the underscore. *)
Definition is_word (c : ascii) : bool :=
  let n := code c in
  between 48 57 n || between 65 90 n || (n =? 95)%N || between 97 122 n
  || (n =? 170)%N || between 178 179 n || (n =? 181)%N
  || between 185 186 n || between 188 190 n
  || between 192 214 n || between 216 246 n || between 248 255 n.

(** [.] without DOTALL: anything but LF. *)
Definition is_dot (c : ascii) : bool := negb (code c =? 10)%N.

(** [str.lower] on one code point: A-Z and the Latin-1 capitals
    (all of U+00C0..U+00DE but the multiplication sign). *)
Definition lower_char (c : ascii) : ascii :=
  let n := code c in
  if between 65 90 n || (between 192 222 n && negb (n =? 215)%N)
  then ascii_of_N (n + 32) else c.

Definition lower (t : text) : text := map lower_char t.

Fixpoint drop_while (p : ascii -> bool) (t : text) : text :=
  match t with
  | c :: t' => if p c then drop_while p t' else t
  | [] => []
  end.

Fixpoint take_while (p : ascii -> bool) (t : text) : text :=
  match t with
  | c :: t' => if p c then c :: take_while p t' else []
  | [] => []
  end.

(** [str.strip()] *)
Definition strip (t : text) : text :=
  rev (drop_while is_space (rev (drop_while is_space t))).

(** [t.startswith(p)], returning what follows the prefix. *)
Fixpoint strip_prefix (p t : text) : option text :=
  match p, t with
  | [], _ => Some t
  | a :: p', b :: t' => if Ascii.eqb a b then strip_prefix p' t' else None
  | _ :: _, [] => None
  end.

Definition starts_with (p t : text) : bool :=
  match strip_prefix p t with Some _ => true | None => false end.

(** [needle in hay] *)
Fixpoint contains (needle hay : text) : bool :=
  starts_with needle hay ||
  match hay with
  | [] => false
  | _ :: hay' => contains needle hay'
  end.

Fixpoint text_eqb (a b : text) : bool :=
  match a, b with
  | [], [] => true
  | x :: a', y :: b' => Ascii.eqb x y && text_eqb a' b'
  | _, _ => false
  end.

(** Lexicographic [a < b] on code points, as Python compares [str]. *)
Fixpoint text_ltb (a b : text) : bool :=
  match a, b with
  | _, [] => false
  | [], _ :: _ => true
  | x :: a', y :: b' =>
      (code x <? code y)%N || ((code x =? code y)%N && text_ltb a' b')
  end.

(** [int(ds)] for a run of decimal digits. *)
Definition digit_val (c : ascii) : Z := Z.of_N (code c) - 48.

Definition int_of_digits (ds : text) : Z :=
  fold_left (fun acc c => 10 * acc + digit_val c)%Z ds 0%Z.

(** [str(n)] for an integer. *)
Definition str_of_int (n : Z) : string :=
  DecimalString.NilZero.string_of_int (Z.to_int n).

(** UTF-8 encoding of a text. *)
Definition utf8_char (c : ascii) : string :=
  let n := code c in
  if (n <? 128)%N then String c EmptyString
  else String (ascii_of_N (192 + n / 64))
         (String (ascii_of_N (128 + n mod 64)) EmptyString).

Fixpoint utf8 (t : text) : string :=
  match t with
  | [] => EmptyString
  | c :: t' => (utf8_char c ++ utf8 t')%string
  end.

(** Truthiness of an optional string: [None] and [""] are falsy. *)
Definition truthy (o : option text) : bool :=
  match o with
  | Some (_ :: _) => true
  | _ => false
  end.

End Text.
Import Text.

(* ================================================================== *)
(** ** The fragment of [re] the program's patterns are written in *)
(* ================================================================== *)

Module Re.

(** Every repetition in the program's patterns ranges over a
    one-character class ([\s*], [\s+], [\d+], [.*]), so [Star] and
    [Plus] carry the class.  [Group] is the (only) capturing group;
    [(?:...)] needs no constructor. *)
Inductive regex : Type :=
| Lit (l : text)
| Seq (r1 r2 : regex)
| Alt (r1 r2 : regex)
| Opt (r : regex)
| Star (p : ascii -> bool)
| Plus (p : ascii -> bool)
| Group (r : regex)
| WordB.

(** Result of a successful match. *)
Record match_obj : Type := MatchObj {
  m_start : nat;
  m_end : nat;
  m_group1 : option text
}.

Definition is_word_opt (o : option ascii) : bool :=
  match o with Some c => is_word c | None => false end.

(** [\b]: exactly one of the two neighbours is a word character. *)
Definition at_boundary (prev : option ascii) (s : text) : bool :=
  xorb (is_word_opt prev) (is_word_opt (hd_error s)).

Definition last_char (l : text) (prev : option ascii) : option ascii :=
  match rev l with c :: _ => Some c | [] => prev end.

Section Backtracking.

Variable A : Type.

(** Greedy repetition: take the character if the class allows it and
    go on; give it back when the rest of the pattern fails. *)
Fixpoint star (p : ascii -> bool) (prev : option ascii) (s : text)
    (k : option ascii -> text -> option A) : option A :=
  match s with
  | c :: s' =>
      if p c then
        match star p (Some c) s' k with
        | Some a => Some a
        | None => k prev s
        end
      else k prev s
  | [] => k prev s
  end.

(** The backtracking matcher.  [prev] is the character before the
    current position, [s] the input from the current position on, [g]
    the text captured so far, [k] what remains to be matched. *)
Fixpoint run (r : regex) (prev : option ascii) (s : text) (g : option text)
    (k : option ascii -> text -> option text -> option A) : option A :=
  match r with
  | Lit l =>
      match strip_prefix l s with
      | Some s' => k (last_char l prev) s' g
      | None => None
      end
  | Seq r1 r2 => run r1 prev s g (fun prev' s' g' => run r2 prev' s' g' k)
  | Alt r1 r2 =>
      match run r1 prev s g k with
      | Some a => Some a
      | None => run r2 prev s g k
      end
  | Opt r1 =>
      match run r1 prev s g k with
      | Some a => Some a
      | None => k prev s g
      end
  | Star p => star p prev s (fun prev' s' => k prev' s' g)
  | Plus p =>
      match s with
      | c :: s' =>
          if p c then star p (Some c) s' (fun prev' s' => k prev' s' g)
          else None
      | [] => None
      end
  | Group r1 =>
      run r1 prev s g
        (fun prev' s' _ =>
           k prev' s' (Some (firstn (List.length s - List.length s') s)))
  | WordB => if at_boundary prev s then k prev s g else None
  end.

End Backtracking.

(** The pattern tried at one position; [pos] is that position. *)
Definition match_here (r : regex) (prev : option ascii) (s : text)
    (pos : nat) : option match_obj :=
  run r prev s None
    (fun _ s' g => Some (MatchObj pos (pos + (List.length s - List.length s')) g)).

(** [re.search]: the leftmost position where the pattern matches. *)
Fixpoint search_from (r : regex) (prev : option ascii) (s : text)
    (pos : nat) : option match_obj :=
  match match_here r prev s pos with
  | Some m => Some m
  | None =>
      match s with
      | [] => None
      | c :: s' => search_from r (Some c) s' (S pos)
      end
  end.

Definition search (r : regex) (t : text) : option match_obj :=
  search_from r None t 0.

(** [re.fullmatch] *)
Definition fullmatch (r : regex) (t : text) : option match_obj :=
  run r None t None
    (fun _ s' g =>
       match s' with
       | [] => Some (MatchObj 0 (List.length t) g)
       | _ :: _ => None
       end).

(** [re.split] for a pattern all of whose matches are non-empty (the
    case of the one pattern the program splits on): the pieces between
    successive leftmost matches. *)
Fixpoint split_fuel (fuel : nat) (r : regex) (prev : option ascii)
    (s : text) : list text :=
  match fuel with
  | O => [s]
  | S fuel' =>
      match search_from r prev s 0 with
      | None => [s]
      | Some m =>
          firstn (m_start m) s ::
          split_fuel fuel' r (nth_error s (m_end m - 1)) (skipn (m_end m) s)
      end
  end.

Definition split (r : regex) (t : text) : list text :=
  split_fuel (List.length t) r None t.

(** [a|b|c] over literals, tried from left to right. *)
Fixpoint alts (l : list text) : regex :=
  match l with
  | [] => Lit []
  | [a] => Lit a
  | a :: l' => Alt (Lit a) (alts l')
  end.

End Re.

(* ================================================================== *)
(** ** [difflib.get_close_matches] *)
(* ================================================================== *)

Module Difflib.

(** [SequenceMatcher(a=x, b=word)] with [isjunk=None] and autojunk on.
    Scores are kept as exact fractions; the floating-point quotients
    the library compares order the same way for texts shorter than
    2^26 characters. *)

Definition occurrences (c : ascii) (b : text) : nat :=
  List.length (filter (Ascii.eqb c) b).

(** [__chain_b]: when [b] has 200 elements or more, those occurring
    more than [n // 100 + 1] times are dropped from the index [b2j]. *)
Definition popular (b : text) (c : ascii) : bool :=
  (200 <=? List.length b) && (List.length b / 100 + 1 <? occurrences c b).

Record block : Type := Block { b_i : nat; b_j : nat; b_size : nat }.

(** One round of the inner loop of [find_longest_match]: from the row
    [j2len] of [a[i-1]] (shifted by one, absent entries are 0) to the
    row [newj2len] of [a[i]]. *)
Fixpoint next_row (ai : ascii) (blo bhi j : nat) (b : text)
    (shifted : list nat) : list nat :=
  match b with
  | [] => []
  | c :: b' =>
      (if (blo <=? j) && (j <? bhi) && Ascii.eqb c ai
       then S (hd 0 shifted) else 0)
      :: next_row ai blo bhi (S j) b' (tl shifted)
  end.

(** [if k > bestsize: besti, bestj, bestsize = i-k+1, j-k+1, k], for
    the [j] of one row in increasing order. *)
Fixpoint scan_row (i j : nat) (row : list nat) (best : block) : block :=
  match row with
  | [] => best
  | k :: row' =>
      scan_row i (S j) row'
        (if b_size best <? k then Block (i + 1 - k) (j + 1 - k) k else best)
  end.

Fixpoint rows_loop (a b : text) (pop : ascii -> bool) (blo bhi : nat)
    (i : nat) (todo : text) (j2len : list nat) (best : block) : block :=
  match todo with
  | [] => best
  | ai :: todo' =>
      let row :=
        if pop ai then map (fun _ => 0) b
        else next_row ai blo bhi 0 b (0 :: j2len) in
      rows_loop a b pop blo bhi (S i) todo' row (scan_row i 0 row best)
  end.

Definition char_at (t : text) (n : nat) : option ascii := nth_error t n.

Definition same_char (a b : text) (i j : nat) : bool :=
  match char_at a i, char_at b j with
  | Some x, Some y => Ascii.eqb x y
  | _, _ => false
  end.

(** The two extension loops for non-junk elements (no element is junk
    here, so the two junk loops never run). *)
Fixpoint extend_left (fuel : nat) (a b : text) (alo blo : nat)
    (m : block) : block :=
  match fuel with
  | O => m
  | S fuel' =>
      if (alo <? b_i m) && (blo <? b_j m)
         && same_char a b (b_i m - 1) (b_j m - 1)
      then extend_left fuel' a b alo blo
             (Block (b_i m - 1) (b_j m - 1) (b_size m + 1))
      else m
  end.

Fixpoint extend_right (fuel : nat) (a b : text) (ahi bhi : nat)
    (m : block) : block :=
  match fuel with
  | O => m
  | S fuel' =>
      if (b_i m + b_size m <? ahi) && (b_j m + b_size m <? bhi)
         && same_char a b (b_i m + b_size m) (b_j m + b_size m)
      then extend_right fuel' a b ahi bhi
             (Block (b_i m) (b_j m) (b_size m + 1))
      else m
  end.

Definition find_longest_match (a b : text) (alo ahi blo bhi : nat) : block :=
  let m0 :=
    rows_loop a b (popular b) blo bhi alo
      (firstn (ahi - alo) (skipn alo a)) [] (Block alo blo 0) in
  let m1 := extend_left (List.length a) a b alo blo m0 in
  extend_right (List.length a) a b ahi bhi m1.

(** Total size of [get_matching_blocks()]: the longest block, then the
    same to its left and to its right. *)
Fixpoint matches (fuel : nat) (a b : text) (alo ahi blo bhi : nat) : nat :=
  match fuel with
  | O => 0
  | S fuel' =>
      let m := find_longest_match a b alo ahi blo bhi in
      let i := b_i m in
      let j := b_j m in
      let k := b_size m in
      if k =? 0 then 0
      else
        k
        + (if (alo <? i) && (blo <? j)
           then matches fuel' a b alo i blo j else 0)
        + (if (i + k <? ahi) && (j + k <? bhi)
           then matches fuel' a b (i + k) ahi (j + k) bhi else 0)
  end.

(** [ratio()] as a fraction [(numerator, denominator)]:
    [2.0 * matches / length], and [1.0] when both are empty. *)
Definition ratio (a b : text) : nat * nat :=
  let la := List.length a in
  let lb := List.length b in
  if la + lb =? 0 then (1, 1)
  else (2 * matches (S la) a b 0 la 0 lb, la + lb).

Definition score_ltb (x y : nat * nat) : bool :=
  fst x * snd y <? fst y * snd x.

Definition score_eqb (x y : nat * nat) : bool :=
  fst x * snd y =? fst y * snd x.

(** [ratio() >= 0.6]; the two quick ratios tested before it are upper
    bounds of it and change nothing. *)
Definition close_enough (s : nat * nat) : bool := 3 * snd s <=? 5 * fst s.

(** [max] over the [(score, x)] pairs: the first of the greatest. *)
Fixpoint best_of (word : text) (cands : list text)
    (best : option ((nat * nat) * text)) : option ((nat * nat) * text) :=
  match cands with
  | [] => best
  | x :: cands' =>
      let s := ratio x word in
      let best' :=
        if close_enough s then
          match best with
          | None => Some (s, x)
          | Some (s0, x0) =>
              if score_ltb s0 s || (score_eqb s0 s && text_ltb x0 x)
              then Some (s, x) else best
          end
        else best in
      best_of word cands' best'
  end.

(** [get_close_matches(word, possibilities, n=1)], default cutoff:
    [None] for the empty list, otherwise its only element. *)
Definition get_close_matches (word : text) (possibilities : list text)
    : option text :=
  match best_of word possibilities None with
  | Some (_, x) => Some x
  | None => None
  end.

End Difflib.

(* ================================================================== *)
(** ** Binary64 numbers: [float(int)], literals and ["{:.2f}"] *)
(* ================================================================== *)

Module Float.

Local Open Scope Z_scope.

(** Nearest integer to [n/d] ([0 <= n], [0 < d]), ties to even. *)
Definition round_half_even (n d : Z) : Z :=
  let q := n / d in
  let r := n mod d in
  if 2 * r <? d then q
  else if d <? 2 * r then q + 1
  else if Z.even q then q else q + 1.

(** [float(n)] for a non-negative integer: exact below 2^53, otherwise
    rounded to 53 significant bits (ties to even); [None] is Python's
    [OverflowError: int too large to convert to float]. *)
Definition float_of_nonneg (n : Z) : option Z :=
  if n <? 2 ^ 53 then Some n
  else
    let e := Z.log2 n - 52 in
    let v := round_half_even n (2 ^ e) * 2 ^ e in
    if v <? 2 ^ 1024 then Some v else None.

Definition float_of_int (n : Z) : option Z :=
  if 0 <=? n then float_of_nonneg n
  else option_map Z.opp (float_of_nonneg (- n)).

(** Values of type [float]: [m * 2^e] with a 53-bit significand. *)
Definition binary64 (q : Q) : Prop :=
  exists m e : Z,
    Z.abs m < 2 ^ 53 /\ -1074 <= e <= 971 /\ (q == inject_Z m * 2 ^ e)%Q.

(** The value of a decimal literal [n/d] in the normal range
    ([0 < n], [0 < d]): the nearest binary64 number. *)
Definition float_lit (n d : Z) : Q :=
  let e0 := Z.log2 n - Z.log2 d - 52 in
  let scaled e := if 0 <=? e then (n, d * 2 ^ e) else (n * 2 ^ (- e), d) in
  let e := if fst (scaled e0) / snd (scaled e0) <? 2 ^ 52
           then e0 - 1 else e0 in
  let m := round_half_even (fst (scaled e)) (snd (scaled e)) in
  Qred (inject_Z m * 2 ^ e)%Q.

(** The cells of a numeric column: 64-bit integers ([int64]) or
    floats ([float64]). *)
Definition int64 (q : Q) : Prop :=
  exists n : Z, - 2 ^ 63 <= n < 2 ^ 63 /\ (q == inject_Z n)%Q.

Definition numeric (q : Q) : Prop := int64 q \/ binary64 q.

(** The conversion of a cell of a numeric column to [float64], as
    NumPy makes it before it compares the column with a [float] and as
    [format] makes it for a presentation type [f]: a whole number is
    rounded as [float_of_int] rounds it (the cells of an [int64] column
    are whole numbers; a float that is a whole number is left as it
    is by that rounding); the other cells are floats already. *)
Definition to_float64 (q : Q) : Q :=
  let q' := Qred q in
  if Zpos (Qden q') =? 1 then
    match float_of_int (Qnum q') with
    | Some x => inject_Z x
    | None => q
    end
  else q.

Definition two_digits (n : Z) : string :=
  ((if (n <? 10)%Z then "0" else "") ++ str_of_int n)%string.

(** [f"{q:.2f}"]: the exact value rounded to two decimals, ties to
    even. *)
Definition format_2f (q : Q) : string :=
  let a := Qabs q in
  let h := round_half_even (Qnum a * 100) (Zpos (Qden a)) in
  ((if Qlt_le_dec q 0 then "-" else "")
   ++ str_of_int (h / 100)%Z ++ "." ++ two_digits (h mod 100)%Z)%string.

End Float.

Import Re.

(* ================================================================== *)
(** ** The catalog: [df] and the detected columns *)
(* ================================================================== *)

(** A cell of a text column: a string, or [None] for a missing value.
    A price after [pd.to_numeric(errors="coerce")]: the exact value of
    the number (a 64-bit integer or a float, by the type of the
    column), or [None] for NaN. *)
Record Row : Type := mkRow {
  r_item : option text;
  r_category : option text;
  r_color : option text;
  r_price : option Q
}.

(** [df] with the outcome of the column detection: [item_col],
    [price_col], [color_col] and [category_col] tell whether a column
    was found for the role (when it was not, the field of the rows is
    not looked at). *)
Record Catalog : Type := mkCatalog {
  item_col : bool;
  price_col : bool;
  color_col : bool;
  category_col : bool;
  rows : list Row
}.

(** The fallback dataset used when the CSV file is missing. *)
Definition fallback_row (i cat col : string) (cents : Z) : Row :=
  mkRow (Some (lit i)) (Some (lit cat)) (Some (lit col))
        (Some (Float.float_lit cents 100)).

Definition fallback_df : Catalog :=
  mkCatalog true true true true
    [ fallback_row "Blue Jeans" "Bottoms" "Blue" 4999;
      fallback_row "Black Sneakers" "Shoes" "Black" 6999;
      fallback_row "White T-Shirt" "Tops" "White" 1999;
      fallback_row "Red Dress" "Dresses" "Red" 8999;
      fallback_row "Green Hoodie" "Outerwear" "Green" 5999;
      fallback_row "Yellow Scarf" "Accessories" "Yellow" 1499 ].

(** [Series.dropna().unique()], kept to the strings: the values in
    order of first appearance. *)
Fixpoint unique (l : list text) : list text :=
  match l with
  | [] => []
  | x :: l' => x :: filter (fun y => negb (text_eqb x y)) (unique l')
  end.

Fixpoint dropna (A : Type) (l : list (option A)) : list A :=
  match l with
  | [] => []
  | Some x :: l' => x :: dropna l'
  | None :: l' => dropna l'
  end.

Definition unique_values (col : Row -> option text) (df : Catalog)
    : list text :=
  unique (dropna (map col (rows df))).

(** [Series.str.contains(re.escape(s), case=False, na=False)] on one
    cell. *)
Definition cell_contains (s : text) (cell : option text) : bool :=
  match cell with
  | Some v => contains (lower s) (lower v)
  | None => false
  end.

(** The first element satisfying [p]: [next((x for x in l if p x), None)]
    and the [for ... if ...: break] loops. *)
Definition first_such (A : Type) (p : A -> bool) (l : list A) : option A :=
  find p l.

(* ================================================================== *)
(** ** [find_product] *)
(* ================================================================== *)

Definition find_product (df : Catalog) (search_text : text) : option Row :=
  let txt := lower search_text in
  let color_match :=
    if color_col df
    then first_such (fun c => contains (lower c) txt) (unique_values r_color df)
    else None in
  let item_match :=
    if item_col df then
      let unique_items := unique_values r_item df in
      let exact := first_such (fun i => contains (lower i) txt) unique_items in
      if negb (truthy exact) && negb (Nat.eqb (List.length unique_items) 0)
      then
        let hit := Difflib.get_close_matches txt (map lower unique_items) in
        let wanted := match hit with Some h => h | None => [] end in
        first_such (fun i => text_eqb (lower i) wanted) unique_items
      else exact
    else None in
  if truthy item_match then
    let filtered :=
      if item_col df
      then filter (fun r => match item_match with
                            | Some i => cell_contains i (r_item r)
                            | None => false
                            end) (rows df)
      else rows df in
    let filtered :=
      if truthy color_match && color_col df
      then filter (fun r => match color_match with
                            | Some c => cell_contains c (r_color r)
                            | None => false
                            end) filtered
      else filtered in
    hd_error filtered
  else None.

(* ================================================================== *)
(** ** Exceptions *)
(* ================================================================== *)

(** Exceptions that escape the modelled functions. *)
Inductive exn : Type := OverflowError | KeyError | ValueError | TypeError.

Inductive outcome (A : Type) : Type :=
| Ok (a : A)
| Raised (e : exn).

Arguments Ok {A} a.
Arguments Raised {A} e.

Definition bind (A B : Type) (x : outcome A) (f : A -> outcome B)
    : outcome B :=
  match x with
  | Ok a => f a
  | Raised e => Raised e
  end.

Notation "x <- c ;; k" := (bind c (fun x => k))
  (at level 61, c at next level, right associativity).

(* ================================================================== *)
(** ** [extract_filters] *)
(* ================================================================== *)

Inductive direction : Type := less | more.

(** [\s*\$?\s*(\d+)] *)
Definition amount : regex :=
  Seq (Star is_space)
    (Seq (Opt (Lit (lit "$"))) (Seq (Star is_space) (Group (Plus is_digit)))).

(** [(?:under|less|below)\s*\$?\s*(\d+)] *)
Definition less_pattern : regex :=
  Seq (alts [lit "under"; lit "less"; lit "below"]) amount.

(** [(?:more than|above|over|greater(?: than)?)\s*\$?\s*(\d+)] *)
Definition more_pattern : regex :=
  Seq (Alt (Lit (lit "more than"))
        (Alt (Lit (lit "above"))
           (Alt (Lit (lit "over"))
              (Seq (Lit (lit "greater")) (Opt (Lit (lit " than")))))))
      amount.

Definition colors : list text :=
  map lit ["black"; "blue"; "white"; "red"; "green"; "yellow"; "pink";
           "purple"; "grey"; "gray"; "brown"; "maroon"]%string.

(** The longest run of digits [int] converts: beyond it the
    interpreter refuses the conversion ([sys.get_int_max_str_digits()],
    4300 unless the interpreter is started with another limit). *)
Definition max_str_digits : nat := 4300.

(** [int(ds)] for a run of decimal digits: [ValueError] when the run
    is longer than the limit. *)
Definition int (ds : text) : outcome Z :=
  if max_str_digits <? List.length ds then Raised ValueError
  else Ok (int_of_digits ds).

(** [int(m.group(1))]; a group that took no part in the match is
    [None], which [int] refuses with [TypeError]. *)
Definition group_int (m : match_obj) : outcome Z :=
  match m_group1 m with
  | Some ds => int ds
  | None => Raised TypeError
  end.

(** The block "budget and direction" of [extract_filters], on the
    lowercased text. *)
Definition budget_and_direction (text : Text.text)
    : outcome (option Z * option direction) :=
  let m_less := search less_pattern text in
  let m_more := search more_pattern text in
  match m_less, m_more with
  | Some m, _ => b <- group_int m ;; Ok (Some b, Some less)
  | None, Some m => b <- group_int m ;; Ok (Some b, Some more)
  | None, None => Ok (None, None)
  end.

(** The block "color list". *)
Definition found_color (text : Text.text) : option Text.text :=
  let found_color := first_such (fun c => contains c text) colors in
  match found_color with
  | Some c => if text_eqb c (lit "gray") then Some (lit "grey") else Some c
  | None => None
  end.

(** The block "item via fuzzy match". *)
Definition found_item (df : Catalog) (text : Text.text)
    : option Text.text :=
  let lower_items :=
    if item_col df then map lower (unique_values r_item df) else [] in
  let found_item := first_such (fun i => contains i text) lower_items in
  if negb (truthy found_item) && negb (Nat.eqb (List.length lower_items) 0)
  then Difflib.get_close_matches text lower_items
  else found_item.

(** The three blocks in the order of the source: the budget first, so
    that an exception of [int] leaves before the color and the item
    are looked for. *)
Definition extract_filters (df : Catalog) (text0 : text)
    : outcome (option text * option text * option Z * option direction) :=
  let text := lower text0 in
  bp <- budget_and_direction text ;;
  let found_color := found_color text in
  let found_item := found_item df text in
  Ok (found_item, found_color, fst bp, snd bp).

(* ================================================================== *)
(** ** [search_products] *)
(* ================================================================== *)

(** Order of [sort_values(by=price_col, ascending=True)]: by price,
    missing prices last. *)
Definition price_le (a b : Row) : Prop :=
  match r_price a, r_price b with
  | Some p, Some q => (p <= q)%Q
  | Some _, None => True
  | None, Some _ => False
  | None, None => True
  end.

(** [DataFrame.sort_values] is called with its default [kind]
    ("quicksort"), which pandas documents as not stable and which NumPy
    implements differently from one platform to the next.  The model
    therefore takes the sorting routine as a parameter with the
    documented contract: the rows come back rearranged in ascending
    order of price; the order among rows of equal price is whatever the
    routine yields. *)
Record Sorter : Type := mkSorter {
  sort_values : list Row -> list Row;
  sort_values_perm : forall l, Permutation l (sort_values l);
  sort_values_sorted : forall l, StronglySorted price_le (sort_values l)
}.

Definition has_price (r : Row) : bool :=
  match r_price r with Some _ => true | None => false end.

(** [results[price_col] <= x] and [>= x] on one row, [x] a [float]:
    the price is compared as a [float64] (an [int64] column is
    converted first); false on NaN. *)
Definition price_leb (x : Z) (r : Row) : bool :=
  match r_price r with
  | Some p => Qle_bool (Float.to_float64 p) (inject_Z x)
  | None => false
  end.

Definition price_geb (x : Z) (r : Row) : bool :=
  match r_price r with
  | Some p => Qle_bool (inject_Z x) (Float.to_float64 p)
  | None => false
  end.

(** [float(budget)] *)
Definition float (budget : Z) : outcome Z :=
  match Float.float_of_int budget with
  | Some x => Ok x
  | None => Raised OverflowError
  end.

(** The budget filter. *)
Definition budget_filter (df : Catalog) (budget : option Z)
    (price_type : option direction) (results : list Row)
    : outcome (list Row) :=
  match budget with
  | Some b =>
      if price_col df then
        match price_type with
        | Some less => x <- float b ;; Ok (filter (price_leb x) results)
        | Some more => x <- float b ;; Ok (filter (price_geb x) results)
        | None => Ok results
        end
      else Ok results
  | None => Ok results
  end.

(** [results[results[col].str.contains(re.escape(s), case=False, na=False)]],
    applied when [s] is truthy and the column exists. *)
Definition text_filter (col : bool) (cell : Row -> option text)
    (s : option text) (results : list Row) : list Row :=
  match s with
  | Some (ch :: s') =>
      if col then filter (fun r => cell_contains (ch :: s') (cell r)) results
      else results
  | _ => results
  end.

(** [results.dropna(subset=[price_col]) if price_col else results] *)
Definition drop_unpriced (df : Catalog) (results : list Row) : list Row :=
  if price_col df then filter has_price results else results.

(** The end of [search_products]: [None] for an empty frame, otherwise
    the frame sorted by price and cut to [head(3)]. *)
Definition sorted_head (S : Sorter) (df : Catalog) (results : list Row)
    : option (list Row) :=
  match results with
  | [] => None
  | _ :: _ =>
      Some (firstn 3 (if price_col df then sort_values S results
                      else results))
  end.

Definition search_products (S : Sorter) (df : Catalog)
    (item color : option text) (budget : option Z)
    (price_type : option direction) : outcome (option (list Row)) :=
  let results := rows df in
  let results := text_filter (item_col df) r_item item results in
  let results := text_filter (color_col df) r_color color results in
  results <- budget_filter df budget price_type results ;;
  let results := drop_unpriced df results in
  Ok (sorted_head S df results).

(* ================================================================== *)
(** ** [respond_like_bot] *)
(* ================================================================== *)

Local Open Scope string_scope.

Definition nl : string := String (ascii_of_nat 10) EmptyString.

(** [x or d] inside an f-string. *)
Definition or_default (x : option text) (d : string) : string :=
  match x with
  | Some (c :: t) => utf8 (c :: t)
  | _ => d
  end.

(** A cell inside an f-string; a missing value prints as [nan]. *)
Definition show_cell (c : option text) : string :=
  match c with
  | Some t => utf8 t
  | None => "nan"
  end.

Definition is_zero (b : option Z) : bool :=
  match b with
  | Some 0%Z => true
  | _ => false
  end.

Definition show_budget (b : option Z) : string :=
  match b with
  | Some n => str_of_int n
  | None => "None"
  end.

Definition render_row (df : Catalog) (row : Row) : string :=
  let name := if item_col df then show_cell (r_item row) else "Item" in
  let color_val := if color_col df then show_cell (r_color row) else "-" in
  let price_val :=
    match r_price row with
    | Some p =>
        if price_col df then "$" ++ Float.format_2f (Float.to_float64 p)
        else "N/A"
    | None => "N/A"
    end in
  let category_val :=
    if category_col df then show_cell (r_category row) else "-" in
  "✨ **" ++ name ++ "** — " ++ price_val ++ nl
  ++ "   Category: " ++ category_val ++ " | Color: " ++ color_val ++ nl ++ nl.

Definition respond_like_bot (df : Catalog) (results : list Row)
    (item color : option text) (budget : option Z)
    (price_type : option direction) : string :=
  let budget_set :=
    match budget with Some _ => negb (is_zero budget) | None => false end in
  let intro :=
    match price_type with
    | Some less =>
        if budget_set
        then "Here are some " ++ or_default color "" ++ " "
             ++ or_default item "items" ++ " under $" ++ show_budget budget
             ++ " 🛍️"
        else "Here are some " ++ or_default color "" ++ " "
             ++ or_default item "items" ++ " I think you’ll love 💫"
    | Some more =>
        if budget_set
        then "Here are some " ++ or_default color "" ++ " "
             ++ or_default item "items" ++ " over $" ++ show_budget budget
             ++ " 💎"
        else "Here are some " ++ or_default color "" ++ " "
             ++ or_default item "items" ++ " I think you’ll love 💫"
    | None =>
        "Here are some " ++ or_default color "" ++ " "
        ++ or_default item "items" ++ " I think you’ll love 💫"
    end in
  intro ++ nl ++ nl
  ++ concat "" (map (render_row df) results)
  ++ "Would you like me to show *similar* or *cheaper* options next?".

(* ================================================================== *)
(** ** The conversation: [st.session_state["context"]] and
       [generate_reply] *)
(* ================================================================== *)

(** The value under ["step"]: the four steps the program writes, and
    any other string (only the fallback at the end of [generate_reply]
    handles those). *)
Inductive step_t : Type :=
| greet | ask_item | ask_color | ask_budget
| other_step (s : string).

Record context : Type := mkContext {
  item : option text;
  color : option text;
  budget : option Z;
  price_type : option direction;
  step : step_t
}.

(** The context of a new session. *)
Definition initial_context : context :=
  mkContext None None None None greet.

Definition stop_words : list text :=
  map lit ["no"; "stop"; "thanks"; "thank you"; "bye"; "ok"; "okay";
           "cancel"].

(** [.*\bW\b.*] with [W = re.escape(w)] *)
Definition stop_pattern (w : text) : regex :=
  Seq (Star is_dot) (Seq WordB (Seq (Lit w) (Seq WordB (Star is_dot)))).

(** [any(re.fullmatch(rf".*\b{re.escape(w)}\b.*", text) for w in stop_words)] *)
Definition is_stop (t : text) : bool :=
  existsb (fun w => match fullmatch (stop_pattern w) t with
                    | Some _ => true
                    | None => false
                    end) stop_words.

(** [(?:under|less|below|more than|above|over|greater)\s*\$?(\d+)] *)
Definition budget_phrase : regex :=
  Seq (alts [lit "under"; lit "less"; lit "below"; lit "more than";
             lit "above"; lit "over"; lit "greater"])
    (Seq (Star is_space) (Seq (Opt (Lit (lit "$"))) (Group (Plus is_digit)))).

Definition has_budget_phrase (t : text) : bool :=
  match search budget_phrase t with Some _ => true | None => false end.

(** One call of [search_products], as seen from outside. *)
Record search_call : Type := mkCall {
  call_item : option text;
  call_color : option text;
  call_budget : option Z;
  call_price_type : option direction
}.

(** What one call of [generate_reply] does: the reply it returns (or
    the exception it raises), the context it leaves in the session, and
    the calls of [search_products] it made. *)
Record turn : Type := mkTurn {
  reply : outcome string;
  ctx_after : context;
  searches : list search_call
}.

Definition farewell : string := "Alright 👋 Have a wonderful shopping day!".

Definition no_match_in_range (item : option text) : string :=
  "I couldn’t find any " ++ or_default item "items" ++ " in that range 😅".

Definition ask_for_item : string :=
  "Hey there 👋! What are you shopping for today? (e.g., jeans, shoes, dresses)".

Definition ask_for_color (item : option text) : string :=
  "Nice choice! 🎯 Do you have a color preference for your "
  ++ or_default item "item" ++ "?".

Definition ask_for_budget : string :=
  "Great! 💕 What’s your budget range? (e.g., under 100 or more than 150)".

Definition nothing_in_range : string :=
  "Hmm, I didn’t find anything in that range 😕 Maybe try another color or price range?".

Definition please_clarify : string :=
  "I didn’t quite get that — could you please clarify?".

(** [results is not None and not results.empty] *)
Definition non_empty (results : option (list Row)) : option (list Row) :=
  match results with
  | Some (r :: rs) => Some (r :: rs)
  | _ => None
  end.

(** The search followed by the choice between the rendered results
    and [otherwise]. *)
Definition search_and_render (S : Sorter) (df : Catalog)
    (item color : option text) (budget : option Z)
    (price_type : option direction) (otherwise : string) : outcome string :=
  results <- search_products S df item color budget price_type ;;
  match non_empty results with
  | Some rs => Ok (respond_like_bot df rs item color budget price_type)
  | None => Ok otherwise
  end.

Definition generate_reply (S : Sorter) (df : Catalog) (context : context)
    (user_input : text) : turn :=
  let text := strip (lower user_input) in
  (* quick exit phrases *)
  if is_stop text then
    mkTurn (Ok farewell) (mkContext None None None None greet) []
  (* if budget phrase present, run a search with current context *)
  else if has_budget_phrase text then
    match extract_filters df text with
    | Raised e => mkTurn (Raised e) context []
    | Ok (_, _, budget, price_type) =>
        let item := item context in
        let color := color context in
        let context :=
          mkContext item color budget price_type (step context) in
        mkTurn
          (search_and_render S df item color budget price_type
             (no_match_in_range item))
          context
          [mkCall item color budget price_type]
    end
  else
    (* state machine *)
    match step context with
    | greet =>
        mkTurn (Ok ask_for_item)
          (mkContext (item context) (color context) (budget context)
             (price_type context) ask_item)
          []
    | ask_item =>
        match extract_filters df text with
        | Raised e => mkTurn (Raised e) context []
        | Ok (item, color, _, _) =>
            mkTurn (Ok (ask_for_color item))
              (mkContext item color (budget context) (price_type context)
                 ask_color)
              []
        end
    | ask_color =>
        match extract_filters df text with
        | Raised e => mkTurn (Raised e) context []
        | Ok (_, found_color, _, _) =>
            mkTurn (Ok ask_for_budget)
              (mkContext (item context)
                 (if truthy found_color then found_color else color context)
                 (budget context) (price_type context) ask_budget)
              []
        end
    | ask_budget =>
        match extract_filters df text with
        | Raised e => mkTurn (Raised e) context []
        | Ok (_, _, budget, price_type) =>
            let context :=
              mkContext (item context) (color context) budget price_type
                ask_budget in
            mkTurn
              (search_and_render S df (item context) (color context) budget
                 price_type nothing_in_range)
              context
              [mkCall (item context) (color context) budget price_type]
        end
    | other_step _ =>
        (* fallback *)
        match extract_filters df text with
        | Raised e => mkTurn (Raised e) context []
        | Ok (item, color, budget, price_type) =>
            if truthy item || truthy color
               || match budget with
                  | Some b => negb (Z.eqb b 0)
                  | None => false
                  end
            then
              match search_products S df item color budget price_type with
              | Raised e =>
                  mkTurn (Raised e) context
                    [mkCall item color budget price_type]
              | Ok results =>
                  match non_empty results with
                  | Some rs =>
                      mkTurn
                        (Ok (respond_like_bot df rs item color budget
                               price_type))
                        (mkContext item color budget price_type
                           (if negb (truthy color) then ask_color
                            else ask_budget))
                        [mkCall item color budget price_type]
                  | None =>
                      mkTurn (Ok please_clarify) context
                        [mkCall item color budget price_type]
                  end
              end
            else mkTurn (Ok please_clarify) context []
        end
    end.

(* ================================================================== *)
(** ** The "Compare Products" handler *)
(* ================================================================== *)

(** [\s+vs\s+|\s+and\s+] *)
Definition vs_or_and : regex :=
  Alt (Seq (Plus is_space) (Seq (Lit (lit "vs")) (Plus is_space)))
      (Seq (Plus is_space) (Seq (Lit (lit "and")) (Plus is_space))).

(** A [dict] with string keys, in insertion order; writing an existing
    key replaces its value in place. *)
Definition dict (V : Type) : Type := list (string * V).

Fixpoint dict_set (V : Type) (k : string) (v : V) (d : dict V) : dict V :=
  match d with
  | [] => [(k, v)]
  | (k', v') :: d' =>
      if String.eqb k k' then (k, v) :: d' else (k', v') :: dict_set k v d'
  end.

(** [row[col]] inside an f-string: [KeyError] when the column was not
    detected ([col] is [None]). *)
Definition get_cell (col : bool) (cell : option text) : outcome string :=
  if col then Ok (show_cell cell) else Raised KeyError.

(** [f"${p[price_col]:.2f}" if price_col else "-"] *)
Definition show_price (df : Catalog) (p : Row) : string :=
  if price_col df then
    match r_price p with
    | Some x => "$" ++ Float.format_2f (Float.to_float64 x)
    | None => "$nan"
    end
  else "-".

(** [p[col] if col else "-"] *)
Definition cell_or_dash (col : bool) (cell : option text) : string :=
  if col then show_cell cell else "-".

(** One [key: value] pair of [comp_data] for the product [p]. *)
Definition product_column (df : Catalog) (p : Row)
    : outcome (string * list string) :=
  name <- get_cell (item_col df) (r_item p) ;;
  col <- get_cell (color_col df) (r_color p) ;;
  Ok (name ++ " (" ++ col ++ ")",
      [show_price df p;
       cell_or_dash (color_col df) (r_color p);
       cell_or_dash (category_col df) (r_category p)]).

(** The entry appended to [compare_history]. *)
Record comparison : Type := mkComparison {
  cmp_p1 : string;
  cmp_c1 : string;
  cmp_p2 : string;
  cmp_c2 : string;
  cmp_table : dict (list string)
}.

Inductive compare_result : Type :=
| Compared (h : comparison)
| Warning (msg : string)
| Info (msg : string)
| Crashed (e : exn)
| Idle.

Definition check_spelling : string :=
  "⚠️ Couldn't find both items — please check spelling or color terms.".

Definition use_format : string := "💡 Use `product1 vs product2` format.".

Definition compare_products (df : Catalog) (user_compare : text)
    : compare_result :=
  match user_compare with
  | [] => Idle
  | _ :: _ =>
      match split vs_or_and (lower user_compare) with
      | s1 :: s2 :: _ =>
          match find_product df (strip s1), find_product df (strip s2) with
          | Some p1, Some p2 =>
              let built :=
                col1 <- product_column df p1 ;;
                col2 <- product_column df p2 ;;
                name1 <- get_cell (item_col df) (r_item p1) ;;
                name2 <- get_cell (item_col df) (r_item p2) ;;
                Ok (mkComparison
                      name1 (cell_or_dash (color_col df) (r_color p1))
                      name2 (cell_or_dash (color_col df) (r_color p2))
                      (dict_set (fst col2) (snd col2)
                         (dict_set (fst col1) (snd col1)
                            [("Attribute", ["Price"; "Color"; "Category"])])))
              in
              match built with
              | Ok h => Compared h
              | Raised e => Crashed e
              end
          | _, _ => Warning check_spelling
          end
      | _ => Info use_format
      end
  end.

(** The product columns of a comparison table. *)
Definition product_columns (h : comparison) : nat :=
  List.length (cmp_table h) - 1.

Local Close Scope string_scope.

(* ================================================================== *)
(** ** Two sorting routines that meet the contract of [Sorter] *)
(* ================================================================== *)

Definition price_le_dec (a b : Row) : bool :=
  match r_price a, r_price b with
  | Some p, Some q => Qle_bool p q
  | Some _, None => true
  | None, Some _ => false
  | None, None => true
  end.

(** Insertion in front of the first row that is not cheaper: rows of
    equal price keep the order they came in. *)
Fixpoint insert_first (x : Row) (l : list Row) : list Row :=
  match l with
  | [] => [x]
  | y :: l' => if price_le_dec x y then x :: l else y :: insert_first x l'
  end.

Definition stable_sort (l : list Row) : list Row :=
  fold_right insert_first [] l.

(** Insertion behind the rows that are not dearer: rows of equal price
    come out in the reverse of the order they came in. *)
Fixpoint insert_last (x : Row) (l : list Row) : list Row :=
  match l with
  | [] => [x]
  | y :: l' => if price_le_dec y x then y :: insert_last x l' else x :: l
  end.

Definition reversing_sort (l : list Row) : list Row :=
  fold_right insert_last [] l.

Definition price_lt_dec (a b : Row) : bool :=
  price_le_dec a b && negb (price_le_dec b a).

(** All the prices differ and increase along the list. *)
Fixpoint strictly_increasing (l : list Row) : bool :=
  match l with
  | [] => true
  | x :: l' => forallb (price_lt_dec x) l' && strictly_increasing l'
  end.

(* ================================================================== *)
(** ** Vocabulary of the properties *)
(* ================================================================== *)

(** [s] is [l] with some elements left out. *)
Inductive subseq (A : Type) : list A -> list A -> Prop :=
| subseq_nil : subseq [] []
| subseq_skip x s l : subseq s l -> subseq s (x :: l)
| subseq_keep x s l : subseq s l -> subseq (x :: s) (x :: l).

Definition same_price (p : Q) (r : Row) : bool :=
  match r_price r with
  | Some q => Qeq_bool p q
  | None => false
  end.

(** Rows of equal price stand in [result] in the order they have in
    the catalog. *)
Definition keeps_catalog_order (df : Catalog) (result : list Row) : Prop :=
  forall p, subseq (filter (same_price p) result) (rows df).

(** A price tag at the head of [s]: white space, perhaps a dollar sign,
    white space again (any of them may be empty), then the digits
    [ds]; [rest] is what follows the digits. *)
Definition amount_at (s ds rest : text) : Prop :=
  exists ws1 dollar ws2,
    forallb is_space ws1 = true /\
    (dollar = [] \/ dollar = lit "$") /\
    forallb is_space ws2 = true /\
    ds <> [] /\ forallb is_digit ds = true /\
    s = ws1 ++ dollar ++ ws2 ++ ds ++ rest.

Definition less_keywords : list text :=
  map lit ["under"; "less"; "below"]%string.

Definition more_keywords : list text :=
  map lit ["more than"; "above"; "over"; "greater than"; "greater"]%string.

(** In [t], after [pre], stands one of the keywords [kws] followed by
    a price tag with the digits [ds]. *)
Definition phrase_at (kws : list text) (t pre ds rest : text) : Prop :=
  exists kw mid,
    In kw kws /\ t = pre ++ kw ++ mid /\ amount_at mid ds rest.

Definition has_phrase (kws : list text) (t : text) : Prop :=
  exists pre ds rest, phrase_at kws t pre ds rest.

Definition no_digit_ahead (rest : text) : Prop :=
  match rest with
  | c :: _ => is_digit c = false
  | [] => True
  end.


(** [ds] are all the digits of the leftmost such phrase of [t]. *)
Definition first_phrase (kws : list text) (t ds : text) : Prop :=
  exists pre rest,
    phrase_at kws t pre ds rest /\
    no_digit_ahead rest /\
    forall pre' ds' rest',
      phrase_at kws t pre' ds' rest' -> List.length pre <= List.length pre'.

(** The same as functions: how the patterns scan a price tag and a
    phrase at the head of [s]. *)
Definition skip_dollar (s : text) : text :=
  match strip_prefix (lit "$") s with
  | Some s' => s'
  | None => s
  end.

Definition scan_digits (s : text) : option (text * text) :=
  match s with
  | c :: _ =>
      if is_digit c then Some (take_while is_digit s, drop_while is_digit s)
      else None
  | [] => None
  end.

Definition scan_amount (s : text) : option (text * text) :=
  scan_digits
    (drop_while is_space (skip_dollar (drop_while is_space s))).

(** The first of the keywords [kws] that stands at the head of [s]
    and is followed by what [tail] scans. *)
Fixpoint scan_keywords (tail : text -> option (text * text))
    (kws : list text) (s : text) : option (text * text) :=
  match kws with
  | [] => None
  | kw :: kws' =>
      match match strip_prefix kw s with
            | Some mid => tail mid
            | None => None
            end with
      | Some x => Some x
      | None => scan_keywords tail kws' s
      end
  end.

Definition scan_phrase : list text -> text -> option (text * text) :=
  scan_keywords scan_amount.

(** The guard of the budget short-circuit: its keywords, and its
    price tag [\s*\$?(\d+)], which has no white space after the dollar
    sign. *)
Definition guard_keywords : list text :=
  map lit ["under"; "less"; "below"; "more than"; "above"; "over";
           "greater"]%string.

Definition scan_short_amount (s : text) : option (text * text) :=
  scan_digits (skip_dollar (drop_while is_space s)).

(** The outcome of a search that ends where a scan stopped: [f] makes
    the result from what is left and what was captured. *)
Definition finish (A : Type) (f : text -> option text -> A)
    (x : option (text * text)) : option A :=
  match x with
  | Some (ds, rest) => Some (f rest (Some ds))
  | None => None
  end.


(** The label of the column of a product in [comp_data]. *)
Definition label (p : Row) : string :=
  (show_cell (r_item p) ++ " (" ++ show_cell (r_color p) ++ ")")%string.

(** [w] stands in [t] between [pre] and [post], with a word boundary
    on either side. *)
Definition word_at (w t pre post : text) : Prop :=
  t = pre ++ w ++ post /\
  at_boundary (last_char pre None) (w ++ post) = true /\
  at_boundary (last_char w (last_char pre None)) post = true.

(** No line break in [t]. *)
Definition single_line (t : text) : Prop := forallb is_dot t = true.

(* ================================================================== *)
(** ** Inputs of the scenarios *)
(* ================================================================== *)

(** A catalog with two products of the same price. *)
Definition tie_df : Catalog :=
  mkCatalog true true true true
    [ mkRow (Some (lit "Blue Jeans")) (Some (lit "Bottoms")) (Some (lit "Blue"))
        (Some (inject_Z 50));
      mkRow (Some (lit "Red Dress")) (Some (lit "Dresses")) (Some (lit "Red"))
        (Some (inject_Z 50)) ].

(** The fallback dataset without its "Color" column. *)
Definition colorless_df : Catalog :=
  mkCatalog true true false true (rows fallback_df).

(** A session in the middle of the guided flow. *)
Definition jeans_context (s : step_t) : context :=
  mkContext (Some (lit "blue jeans")) (Some (lit "blue")) (Some 80%Z)
    (Some less) s.

(** "stop", a line break, "please". *)
Definition stop_on_two_lines : text :=
  lit "stop" ++ [ascii_of_nat 10] ++ lit "please".

(** "under 1000...0" with 309 zeros. *)
Definition under_huge_budget : text :=
  lit "under 1" ++ repeat "0"%char 309.



(** A catalog whose price column holds 64-bit integers, one of them
    beyond the whole numbers that [float64] holds exactly. *)
Definition ring_df : Catalog :=
  mkCatalog true true true true
    [ mkRow (Some (lit "Big Ring")) (Some (lit "Jewellery"))
        (Some (lit "Gold")) (Some (inject_Z (2 ^ 53 + 1)));
      mkRow (Some (lit "Small Ring")) (Some (lit "Jewellery"))
        (Some (lit "Silver")) (Some (inject_Z (2 ^ 53))) ].

(* ================================================================== *)
(** ** Vocabulary of the further properties *)
(* ================================================================== *)

(** The row [r] passes the text filter for [s] on the column [cell]. *)
Definition text_ok (col : bool) (cell : Row -> option text)
    (s : option text) (r : Row) : bool :=
  match s with
  | Some (ch :: s') => if col then cell_contains (ch :: s') (cell r) else true
  | _ => true
  end.

(** The row [r] is within the budget, [x] being [float(budget)]. *)
Definition budget_ok (df : Catalog) (budget : option Z)
    (price_type : option direction) (r : Row) : bool :=
  match budget with
  | Some b =>
      if price_col df then
        match price_type, Float.float_of_int b with
        | Some less, Some x => price_leb x r
        | Some more, Some x => price_geb x r
        | Some _, None => false
        | None, _ => true
        end
      else true
  | None => true
  end.

(** The row [r] satisfies everything a search asks for. *)
Definition matching (df : Catalog) (item color : option text)
    (budget : option Z) (price_type : option direction) (r : Row) : bool :=
  text_ok (item_col df) r_item item r
  && text_ok (color_col df) r_color color r
  && budget_ok df budget price_type r
  && (if price_col df then has_price r else true).


(** A conversation: the turns on the utterances [us], each from the
    context the turn before left in the session. *)
Fixpoint converse (S : Sorter) (df : Catalog) (ctx : context)
    (us : list text) : context :=
  match us with
  | [] => ctx
  | u :: us' => converse S df (ctx_after (generate_reply S df ctx u)) us'
  end.

(** The step is one of the four the program writes. *)
Definition known_step (s : step_t) : Prop :=
  match s with
  | other_step _ => False
  | _ => True
  end.

(** What the slots of a session hold at any time: a step the program
    wrote; as item nothing or the lowercased name of a catalog item; as
    color nothing or a color of the vocabulary other than "gray"; as
    budget nothing or a number that is not negative, with a direction
    exactly when there is a budget. *)
Definition well_formed (df : Catalog) (ctx : context) : Prop :=
  known_step (step ctx) /\
  match item ctx with
  | Some i => item_col df = true /\ In i (map lower (unique_values r_item df))
  | None => True
  end /\
  match color ctx with
  | Some c => In c colors /\ c <> lit "gray"
  | None => True
  end /\
  match budget ctx, price_type ctx with
  | Some b, Some _ => (0 <= b)%Z
  | None, None => True
  | _, _ => False
  end.

(** [x <= y] on similarity scores kept as fractions. *)
Definition score_le (x y : nat * nat) : Prop :=
  fst x * snd y <= fst y * snd x.


(** The state of the scan for the best candidate, after the
    candidates [seen]. *)
Definition best_so_far (word : text) (seen : list text)
    (best : option ((nat * nat) * text)) : Prop :=
  match best with
  | Some (s, x) =>
      s = Difflib.ratio x word /\ In x seen /\
      Difflib.close_enough s = true /\
      forall y, In y seen ->
                Difflib.close_enough (Difflib.ratio y word) = true ->
                score_le (Difflib.ratio y word) s
  | None =>
      forall y, In y seen ->
                Difflib.close_enough (Difflib.ratio y word) = false
  end.

(* ================================================================== *)
(** ** Track Orders *)
(* ================================================================== *)

(** An entry of [st.session_state["orders"]]. *)
Record Order : Type := mkOrder {
  o_id : text;
  o_item : text;
  o_status : text;
  o_eta : text
}.

(** The orders a session starts with; nothing changes them later. *)
Definition default_orders : list Order :=
  [ mkOrder (lit "2045") (lit "Red Handbag") (lit "Out for Delivery")
      (lit "Today by 6 PM");
    mkOrder (lit "2356") (lit "Blue Jeans") (lit "Delivered")
      (lit "Delivered on Oct 22");
    mkOrder (lit "2789") (lit "Black Sneakers") (lit "Processing")
      (lit "Expected in 2 days") ].

(** The banner under the details of an order. *)
Inductive banner : Type := delivered | on_the_way | processing.

Definition banner_of (o : Order) : banner :=
  if text_eqb (lower (o_status o)) (lit "delivered") then delivered
  else if text_eqb (lower (o_status o)) (lit "out for delivery")
       then on_the_way
       else processing.

(** What the page shows: the greeting, the details of an order with a
    banner, or the warning that no order was found. *)
Inductive tracking : Type :=
| track_greeting
| track_details (o : Order) (b : banner)
| track_not_found.

Definition track_order (orders : list Order) (user_query : text)
    : tracking :=
  match user_query with
  | [] => track_greeting
  | _ :: _ =>
      let user_query := strip (lower user_query) in
      let found_order :=
        first_such
          (fun order =>
             contains (o_id order) user_query
             || contains (lower (o_item order)) user_query)
          orders in
      match found_order with
      | Some o => track_details o (banner_of o)
      | None => track_not_found
      end
  end.


(* ================================================================== *)
(** * Properties *)
(* ================================================================== *)

Unset Implicit Arguments.

(** ** The order on prices and the sorting routines *)

Section PriceOrder.

Lemma price_le_dec_spec a b : price_le_dec a b = true <-> price_le a b.
Proof.
  unfold price_le_dec, price_le.
  destruct (r_price a), (r_price b); try tauto; try (split; [easy|discriminate]).
  apply Qle_bool_iff.
  split; [discriminate | contradiction].
Qed.

Lemma price_le_refl a : price_le a a.
Proof. unfold price_le. destruct (r_price a); [apply Qle_refl | exact I]. Qed.

Lemma price_le_trans a b c : price_le a b -> price_le b c -> price_le a c.
Proof.
  unfold price_le.
  destruct (r_price a), (r_price b), (r_price c); try tauto.
  apply Qle_trans.
Qed.

Lemma price_le_total a b : price_le a b \/ price_le b a.
Proof.
  unfold price_le.
  destruct (r_price a) as [p|], (r_price b) as [q|]; auto.
  destruct (Qlt_le_dec p q) as [H|H]; [left; apply Qlt_le_weak, H | right; exact H].
Qed.

Lemma price_le_dec_false a b : price_le_dec a b = false -> price_le b a.
Proof.
  intros H. destruct (price_le_total a b) as [H1|H1]; [|exact H1].
  apply price_le_dec_spec in H1. congruence.
Qed.

End PriceOrder.

Section Insertion.

Lemma insert_first_perm x l : Permutation (x :: l) (insert_first x l).
Proof.
  induction l as [|y l IH]; simpl; [apply Permutation_refl|].
  destruct (price_le_dec x y); [apply Permutation_refl|].
  eapply perm_trans; [apply perm_swap | apply perm_skip, IH].
Qed.

Lemma insert_last_perm x l : Permutation (x :: l) (insert_last x l).
Proof.
  induction l as [|y l IH]; simpl; [apply Permutation_refl|].
  destruct (price_le_dec y x); [|apply Permutation_refl].
  eapply perm_trans; [apply perm_swap | apply perm_skip, IH].
Qed.

Lemma stable_sort_perm l : Permutation l (stable_sort l).
Proof.
  induction l as [|x l IH]; simpl; [constructor|].
  eapply perm_trans; [apply perm_skip, IH | apply insert_first_perm].
Qed.

Lemma reversing_sort_perm l : Permutation l (reversing_sort l).
Proof.
  induction l as [|x l IH]; simpl; [constructor|].
  eapply perm_trans; [apply perm_skip, IH | apply insert_last_perm].
Qed.

Lemma insert_first_sorted x l :
  StronglySorted price_le l -> StronglySorted price_le (insert_first x l).
Proof.
  induction 1 as [|y l Hs IH Hy]; simpl.
  - repeat constructor.
  - destruct (price_le_dec x y) eqn:E.
    + apply price_le_dec_spec in E.
      constructor; [constructor; assumption|].
      constructor; [exact E|].
      eapply Forall_impl; [|exact Hy].
      intros z Hz. eapply price_le_trans; eassumption.
    + constructor; [exact IH|].
      apply price_le_dec_false in E.
      eapply Permutation_Forall; [apply insert_first_perm|].
      constructor; assumption.
Qed.

Lemma insert_last_sorted x l :
  StronglySorted price_le l -> StronglySorted price_le (insert_last x l).
Proof.
  induction 1 as [|y l Hs IH Hy]; simpl.
  - repeat constructor.
  - destruct (price_le_dec y x) eqn:E.
    + apply price_le_dec_spec in E.
      constructor; [exact IH|].
      eapply Permutation_Forall; [apply insert_last_perm|].
      constructor; assumption.
    + apply price_le_dec_false in E.
      constructor; [constructor; assumption|].
      constructor; [exact E|].
      eapply Forall_impl; [|exact Hy].
      intros z Hz. eapply price_le_trans; eassumption.
Qed.

Lemma stable_sort_sorted l : StronglySorted price_le (stable_sort l).
Proof.
  induction l; simpl; [constructor | apply insert_first_sorted; assumption].
Qed.

Lemma reversing_sort_sorted l : StronglySorted price_le (reversing_sort l).
Proof.
  induction l; simpl; [constructor | apply insert_last_sorted; assumption].
Qed.

End Insertion.

(** The two routines as instances of the contract. *)
Definition stable_sorter : Sorter :=
  mkSorter stable_sort stable_sort_perm stable_sort_sorted.

Definition reversing_sorter : Sorter :=
  mkSorter reversing_sort reversing_sort_perm reversing_sort_sorted.

(** ** [search_products]: what it returns and in which order *)

Section SearchProducts.

Variable S : Sorter.
Variable df : Catalog.

Lemma sorted_app_le (l1 l2 : list Row) :
  StronglySorted price_le (l1 ++ l2) ->
  StronglySorted price_le l1 /\
  forall x y, In x l1 -> In y l2 -> price_le x y.
Proof.
  induction l1 as [|a l1 IH]; simpl; intros H.
  - split; [constructor | intros x y []].
  - inversion H as [|? ? Hs Hall]; subst.
    destruct (IH Hs) as [Hs1 Hle].
    rewrite Forall_forall in Hall.
    split.
    + constructor; [exact Hs1|].
      apply Forall_forall. intros z Hz. apply Hall, in_or_app. now left.
    + intros x y [<-|Hx] Hy.
      * apply Hall, in_or_app. now right.
      * now apply Hle.
Qed.

Lemma firstn_sorted n (l : list Row) :
  StronglySorted price_le l -> StronglySorted price_le (firstn n l).
Proof.
  intros H. rewrite <- (firstn_skipn n l) in H.
  now apply sorted_app_le in H.
Qed.

Lemma firstn_incl (A : Type) n (l : list A) : incl (firstn n l) l.
Proof.
  intros x Hx. rewrite <- (firstn_skipn n l). apply in_or_app. now left.
Qed.

Lemma sorted_head_sorted l r :
  price_col df = true ->
  sorted_head S df l = Some r -> StronglySorted price_le r.
Proof.
  intros Hp. unfold sorted_head. rewrite Hp.
  destruct l; [discriminate|].
  intros H. apply (f_equal (fun o => match o with Some x => x | None => [] end)) in H.
  rewrite <- H. apply firstn_sorted, sort_values_sorted.
Qed.

Lemma sorted_head_incl l r : sorted_head S df l = Some r -> incl r l.
Proof.
  unfold sorted_head. destruct l as [|x l]; [discriminate|].
  intros H. apply (f_equal (fun o => match o with Some x => x | None => [] end)) in H.
  rewrite <- H. intros y Hy. apply firstn_incl in Hy.
  destruct (price_col df); [|exact Hy].
  eapply Permutation_in; [apply Permutation_sym, sort_values_perm | exact Hy].
Qed.

Lemma text_filter_incl col cell s l : incl (text_filter col cell s l) l.
Proof.
  unfold text_filter. destruct s as [[|ch s]|]; try apply incl_refl.
  destruct col; [apply incl_filter | apply incl_refl].
Qed.

Lemma drop_unpriced_incl l : incl (drop_unpriced df l) l.
Proof.
  unfold drop_unpriced. destruct (price_col df);
    [apply incl_filter | apply incl_refl].
Qed.

Lemma budget_filter_incl b pt l l' :
  budget_filter df b pt l = Ok l' -> incl l' l.
Proof.
  unfold budget_filter.
  destruct b as [b|]; [|intros [= <-]; apply incl_refl].
  destruct (price_col df); [|intros [= <-]; apply incl_refl].
  destruct pt as [[]|]; [| |intros [= <-]; apply incl_refl];
    unfold float; destruct (Float.float_of_int b); cbn [bind];
    try discriminate; intros [= <-]; apply incl_filter.
Qed.

(** The search as its last step applied to the filtered frame. *)
Lemma search_products_inv i c b pt r :
  search_products S df i c b pt = Ok (Some r) ->
  exists l,
    budget_filter df b pt
      (text_filter (color_col df) r_color c
         (text_filter (item_col df) r_item i (rows df))) = Ok l /\
    sorted_head S df (drop_unpriced df l) = Some r.
Proof.
  unfold search_products.
  destruct (budget_filter df b pt _) as [l|e]; cbn [bind]; [|discriminate].
  intros [= H]. now exists l.
Qed.

(** The rows of a result are ascending by price. *)
Lemma search_products_sorted i c b pt r :
  price_col df = true ->
  search_products S df i c b pt = Ok (Some r) ->
  StronglySorted price_le r.
Proof.
  intros Hp H. apply search_products_inv in H as (l & _ & H).
  eapply sorted_head_sorted; eassumption.
Qed.

(** The rows of a result are rows of the catalog. *)
Lemma search_products_incl i c b pt r :
  search_products S df i c b pt = Ok (Some r) -> incl r (rows df).
Proof.
  intros H. apply search_products_inv in H as (l & Hb & H).
  apply sorted_head_incl in H. apply budget_filter_incl in Hb.
  eapply incl_tran; [exact H|].
  eapply incl_tran; [apply drop_unpriced_incl|].
  eapply incl_tran; [exact Hb|].
  eapply incl_tran; apply text_filter_incl.
Qed.

End SearchProducts.

(** ** Subsequences *)

Section Subseq.

Variable A : Type.

Lemma subseq_refl (l : list A) : subseq l l.
Proof. induction l; constructor; assumption. Qed.

Lemma subseq_trans (a b c : list A) : subseq a b -> subseq b c -> subseq a c.
Proof.
  intros Hab Hbc. revert a Hab.
  induction Hbc as [|x s l Hsl IH|x s l Hsl IH]; intros a Hab.
  - exact Hab.
  - constructor. now apply IH.
  - inversion Hab; subst.
    + constructor. now apply IH.
    + apply subseq_keep. now apply IH.
Qed.

Lemma subseq_filter (f : A -> bool) (l : list A) : subseq (filter f l) l.
Proof.
  induction l as [|x l IH]; simpl; [constructor|].
  destruct (f x); constructor; assumption.
Qed.

Lemma subseq_nil_l (l : list A) : subseq [] l.
Proof. induction l; constructor; assumption. Qed.

Lemma subseq_firstn n (l : list A) : subseq (firstn n l) l.
Proof.
  revert n. induction l as [|x l IH]; intros [|n]; cbn [firstn].
  - constructor.
  - constructor.
  - apply subseq_nil_l.
  - apply subseq_keep, IH.
Qed.

Lemma filter_subseq (f : A -> bool) (s l : list A) :
  subseq s l -> subseq (filter f s) (filter f l).
Proof.
  induction 1 as [|x s l H IH|x s l H IH]; simpl.
  - constructor.
  - destruct (f x); [constructor|]; assumption.
  - destruct (f x); [apply subseq_keep|]; assumption.
Qed.

End Subseq.

(** ** The stable routine keeps rows of equal price in place *)

Section Stability.

Lemma same_price_le p x y :
  same_price p x = true -> same_price p y = true -> price_le_dec x y = true.
Proof.
  unfold same_price, price_le_dec.
  destruct (r_price x) as [a|], (r_price y) as [b|]; try discriminate.
  intros Ha Hb. apply Qeq_bool_iff in Ha, Hb. apply Qle_bool_iff.
  rewrite <- Ha, <- Hb. apply Qle_refl.
Qed.

Lemma filter_insert_first p x l :
  filter (same_price p) (insert_first x l) = filter (same_price p) (x :: l).
Proof.
  induction l as [|y l IH]; [reflexivity|].
  cbn [insert_first]. destruct (price_le_dec x y) eqn:E; [reflexivity|].
  cbn [filter] in *. rewrite IH.
  destruct (same_price p x) eqn:Ex, (same_price p y) eqn:Ey; try reflexivity.
  rewrite (same_price_le _ _ _ Ex Ey) in E. discriminate.
Qed.

Lemma filter_stable_sort p l :
  filter (same_price p) (stable_sort l) = filter (same_price p) l.
Proof.
  induction l as [|x l IH]; [reflexivity|].
  cbn [stable_sort fold_right]. fold (stable_sort l).
  rewrite filter_insert_first. cbn [filter]. now rewrite IH.
Qed.

Lemma text_filter_subseq col cell s l : subseq (text_filter col cell s l) l.
Proof.
  unfold text_filter. destruct s as [[|ch s]|]; try apply subseq_refl.
  destruct col; [apply subseq_filter | apply subseq_refl].
Qed.

Lemma drop_unpriced_subseq df l : subseq (drop_unpriced df l) l.
Proof.
  unfold drop_unpriced. destruct (price_col df);
    [apply subseq_filter | apply subseq_refl].
Qed.

Lemma budget_filter_subseq df b pt l l' :
  budget_filter df b pt l = Ok l' -> subseq l' l.
Proof.
  unfold budget_filter.
  destruct b as [b|]; [|intros [= <-]; apply subseq_refl].
  destruct (price_col df); [|intros [= <-]; apply subseq_refl].
  destruct pt as [[]|]; [| |intros [= <-]; apply subseq_refl];
    unfold float; destruct (Float.float_of_int b); cbn [bind];
    try discriminate; intros [= <-]; apply subseq_filter.
Qed.

(** With a routine that sorts like [stable_sort], rows of equal price
    come back in catalog order. *)
Lemma stable_search_keeps_catalog_order S df i c b pt r :
  (forall l, sort_values S l = stable_sort l) ->
  search_products S df i c b pt = Ok (Some r) ->
  keeps_catalog_order df r.
Proof.
  intros Hst H p. apply search_products_inv in H as (l & Hb & H).
  apply budget_filter_subseq in Hb.
  assert (Hl : subseq (drop_unpriced df l) (rows df)).
  { eapply subseq_trans; [apply drop_unpriced_subseq|].
    eapply subseq_trans; [exact Hb|].
    eapply subseq_trans; apply text_filter_subseq. }
  eapply subseq_trans; [|exact Hl].
  unfold sorted_head in H. destruct (drop_unpriced df l) as [|x l4]; [discriminate|].
  apply (f_equal (fun o => match o with Some x => x | None => [] end)) in H.
  rewrite <- H.
  destruct (price_col df).
  - eapply subseq_trans; [apply filter_subseq, subseq_firstn|].
    rewrite Hst, filter_stable_sort. apply subseq_filter.
  - eapply subseq_trans; [apply subseq_filter | apply subseq_firstn].
Qed.

End Stability.

(** C2: without any filter, on a catalog with a price column,
    [search_products] returns [None] exactly when no row has a price,
    and otherwise the three cheapest priced rows (all of them when
    there are fewer) in ascending order of price: the result has
    [min 3 n] rows, all priced, ascending, and every priced row left
    out costs at least as much as every row returned. *)
Theorem search_products_three_cheapest (S : Sorter) (df : Catalog) :
  price_col df = true ->
  let priced := filter has_price (rows df) in
  match search_products S df None None None None with
  | Ok None => priced = []
  | Ok (Some r) =>
      priced <> [] /\
      List.length r = min 3 (List.length priced) /\
      StronglySorted price_le r /\
      (forall x, In x r -> has_price x = true) /\
      exists rest,
        Permutation (r ++ rest) priced /\
        forall x y, In x r -> In y rest -> price_le x y
  | Raised _ => False
  end.
Proof.
  intros Hp priced.
  unfold search_products, text_filter, budget_filter. cbn [bind].
  unfold drop_unpriced, sorted_head. rewrite Hp. fold priced.
  destruct priced as [|x l] eqn:E; [reflexivity|]. rewrite <- E.
  pose proof (sort_values_perm S priced) as HP.
  pose proof (sort_values_sorted S priced) as HS.
  split; [rewrite E; discriminate|].
  split; [rewrite length_firstn, (Permutation_length HP); reflexivity|].
  rewrite <- (firstn_skipn 3 (sort_values S priced)) in HS.
  apply sorted_app_le in HS as [HS1 HS2].
  split; [exact HS1|].
  split.
  - intros y Hy. apply firstn_incl in Hy.
    apply (Permutation_in _ (Permutation_sym HP)) in Hy.
    subst priced. now apply filter_In in Hy.
  - exists (skipn 3 (sort_values S priced)). split; [|exact HS2].
    rewrite firstn_skipn. now apply Permutation_sym.
Qed.

Lemma search_products_three_cheapest_witness :
  price_col fallback_df = true /\
  match search_products stable_sorter fallback_df None None None None with
  | Ok (Some r) => List.length r = 3
  | _ => False
  end.
Proof.
  split; [reflexivity|].
  pose proof (search_products_three_cheapest stable_sorter fallback_df
                eq_refl) as H.
  cbv zeta in H.
  destruct (search_products stable_sorter fallback_df None None None None)
    as [[r|]|]; [|discriminate H|exact H].
  destruct H as (_ & H & _). exact H.
Defined.

(** The contract of [sort_values] leaves the order among equal prices
    open: a routine that meets it may return two rows of the same
    price in the reverse of their catalog order. *)
Lemma sort_contract_leaves_ties_open :
  exists r,
    search_products reversing_sorter tie_df None None None None = Ok (Some r)
    /\ ~ keeps_catalog_order tie_df r.
Proof.
  eexists. split; [vm_compute; reflexivity|].
  intros H. specialize (H (inject_Z 50)).
  vm_compute in H.
  inversion H as [|x s l H1|x s l H1]; subst.
  inversion H1 as [|x s l H2|x s l H2]; subst; inversion H2.
Qed.

(** X18: for every catalog with a price column, every combination
    of filters and every sorting routine, the rows returned are rows
    of the catalog in ascending order of price; rows of equal price
    stand in catalog order whenever the sorting routine in use is a
    stable one. *)
Theorem search_products_ascending (S : Sorter) (df : Catalog)
    (i c : option text) (b : option Z) (pt : option direction)
    (r : list Row) :
  price_col df = true ->
  search_products S df i c b pt = Ok (Some r) ->
  StronglySorted price_le r /\
  incl r (rows df) /\
  ((forall l, sort_values S l = stable_sort l) -> keeps_catalog_order df r).
Proof.
  intros Hp H. split; [|split].
  - eapply search_products_sorted; eassumption.
  - eapply search_products_incl; eassumption.
  - intros Hst. eapply stable_search_keeps_catalog_order; eassumption.
Qed.

Lemma search_products_ascending_witness :
  price_col tie_df = true /\
  search_products stable_sorter tie_df None None None None
  = Ok (Some (rows tie_df)) /\
  StronglySorted price_le (rows tie_df) /\
  keeps_catalog_order tie_df (rows tie_df).
Proof.
  assert (E : search_products stable_sorter tie_df None None None None
              = Ok (Some (rows tie_df))) by (vm_compute; reflexivity).
  split; [reflexivity|]. split; [exact E|].
  destruct (search_products_ascending stable_sorter tie_df None None None None
              (rows tie_df) eq_refl E) as (H1 & _ & H3).
  split; [exact H1 | apply H3; reflexivity].
Defined.

(** ** [float(budget)] on integers that are binary64 values *)

Section FloatOfInt.

Local Open Scope Z_scope.

Lemma float_of_nonneg_exact (m e : Z) :
  0 <= m < 2 ^ 53 -> 0 <= e <= 971 ->
  Float.float_of_nonneg (m * 2 ^ e) = Some (m * 2 ^ e).
Proof.
  intros Hm He. unfold Float.float_of_nonneg.
  set (n := m * 2 ^ e).
  destruct (n <? 2 ^ 53) eqn:Hn; [reflexivity|].
  apply Z.ltb_ge in Hn.
  assert (Hpe : 0 < 2 ^ e) by (apply Z.pow_pos_nonneg; lia).
  assert (Hn0 : 0 < n) by (assert (0 < 2 ^ 53) by (apply Z.pow_pos_nonneg; lia); lia).
  assert (Hlo : 53 <= Z.log2 n) by (apply Z.log2_le_pow2; lia).
  assert (Hup : n < 2 ^ (53 + e)).
  { rewrite Z.pow_add_r by lia. subst n. apply Z.mul_lt_mono_pos_r; lia. }
  assert (Hhi : Z.log2 n < 53 + e) by (apply Z.log2_lt_pow2; lia).
  set (E := Z.log2 n - 52).
  assert (HE : 1 <= E <= e) by (subst E; lia).
  assert (HpE : 0 < 2 ^ E) by (apply Z.pow_pos_nonneg; lia).
  assert (Hdiv : n = (m * 2 ^ (e - E)) * 2 ^ E).
  { subst n. rewrite <- Z.mul_assoc, <- Z.pow_add_r by lia.
    now replace (e - E + E) with e by lia. }
  assert (Hmod : n mod 2 ^ E = 0).
  { rewrite Hdiv. apply Z.mod_mul. lia. }
  assert (Hquo : n / 2 ^ E * 2 ^ E = n).
  { rewrite Hdiv at 1. rewrite Z.div_mul by lia. now rewrite <- Hdiv. }
  unfold Float.round_half_even. rewrite Hmod.
  replace (2 * 0 <? 2 ^ E) with true by (symmetry; apply Z.ltb_lt; lia).
  rewrite Hquo.
  replace (n <? 2 ^ 1024) with true; [reflexivity|].
  symmetry. apply Z.ltb_lt.
  eapply Z.lt_le_trans; [exact Hup|].
  apply Z.pow_le_mono_r; lia.
Qed.

Lemma float_of_nonneg_small (n : Z) :
  n < 2 ^ 53 -> Float.float_of_nonneg n = Some n.
Proof.
  intros H. unfold Float.float_of_nonneg.
  now replace (n <? 2 ^ 53) with true by (symmetry; apply Z.ltb_lt; exact H).
Qed.

(** An integer that is a binary64 value converts to itself. *)
Lemma float_of_int_exact (b : Z) :
  Float.binary64 (inject_Z b) -> Float.float_of_int b = Some b.
Proof.
  intros (m & e & Hm & He & Heq).
  assert (Hrepr : Float.float_of_nonneg (Z.abs b) = Some (Z.abs b)).
  { destruct (Z_lt_le_dec e 0) as [Hneg|Hpos].
    - (* a negative exponent: |b| <= |m| < 2^53 *)
      apply float_of_nonneg_small.
      assert (Hq : (inject_Z b * inject_Z (2 ^ (- e)) == inject_Z m)%Q).
      { rewrite Heq, Zpower_Qpower by lia.
        rewrite Qpower_opp.
        change (inject_Z 2) with 2%Q.
        assert (HX : ~ (2 ^ e == 0)%Q) by (apply Qpower_not_0; discriminate).
        set (X := (2 ^ e)%Q) in *. field. exact HX. }
      rewrite <- inject_Z_mult in Hq.
      apply (proj1 (inject_Z_injective _ _)) in Hq.
      assert (H1 : 1 <= 2 ^ (- e)).
      { assert (0 < 2 ^ (- e)) by (apply Z.pow_pos_nonneg; lia). lia. }
      assert (Z.abs b <= Z.abs m); [|lia].
      rewrite <- Hq, Z.abs_mul.
      rewrite (Z.abs_eq (2 ^ (- e))) by lia.
      assert (0 <= Z.abs b) by apply Z.abs_nonneg. nia.
    - (* b = m * 2^e *)
      assert (Hb : b = m * 2 ^ e).
      { apply (proj1 (inject_Z_injective _ _)).
        rewrite Heq, inject_Z_mult, Zpower_Qpower by lia. reflexivity. }
      assert (Hp : 0 < 2 ^ e) by (apply Z.pow_pos_nonneg; lia).
      replace (Z.abs b) with (Z.abs m * 2 ^ e)
        by (rewrite Hb, Z.abs_mul, (Z.abs_eq (2 ^ e)); lia).
      apply float_of_nonneg_exact; [|lia].
      split; [apply Z.abs_nonneg | exact Hm]. }
  unfold Float.float_of_int.
  destruct (0 <=? b) eqn:Hs.
  - apply Z.leb_le in Hs. now rewrite Z.abs_eq in Hrepr.
  - apply Z.leb_gt in Hs. rewrite Z.abs_neq in Hrepr by lia.
    rewrite Hrepr. cbn [option_map]. f_equal. lia.
Qed.


Lemma round_half_even_bounds n d :
  0 <= n -> 0 < d ->
  n / d <= Float.round_half_even n d <= n / d + 1.
Proof.
  intros Hn Hd. unfold Float.round_half_even.
  destruct (2 * (n mod d) <? d); [lia|].
  destruct (d <? 2 * (n mod d)); [lia|].
  destruct (Z.even (n / d)); lia.
Qed.

Lemma float_of_nonneg_none n :
  0 <= n ->
  (Float.float_of_nonneg n = None <-> 2 ^ 1024 - 2 ^ 970 <= n).
Proof.
  intros Hn. unfold Float.float_of_nonneg.
  assert (C1 : 2 ^ 53 < 2 ^ 1024 - 2 ^ 970) by (vm_compute; reflexivity).
  destruct (n <? 2 ^ 53) eqn:Hsmall.
  { apply Z.ltb_lt in Hsmall. split; [discriminate | lia]. }
  apply Z.ltb_ge in Hsmall.
  assert (Hpos : 0 < n)
    by (assert (0 < 2 ^ 53) by (vm_compute; reflexivity); lia).
  set (e := Z.log2 n - 52).
  assert (He : 1 <= e)
    by (assert (53 <= Z.log2 n) by (apply Z.log2_le_pow2; lia); lia).
  set (P := 2 ^ e).
  assert (HP : 0 < P) by (apply Z.pow_pos_nonneg; lia).
  destruct (Z.log2_spec n Hpos) as [Hlo Hhi].
  replace (Z.log2 n) with (52 + e) in Hlo by lia.
  replace (Z.succ (Z.log2 n)) with (53 + e) in Hhi by lia.
  rewrite Z.pow_add_r in Hlo, Hhi by lia. fold P in Hlo, Hhi.
  pose proof (Z.div_mod n P ltac:(lia)) as Hdm.
  pose proof (Z.mod_pos_bound n P HP) as Hr.
  set (q := n / P) in *. set (r := n mod P) in *.
  assert (Hq : 2 ^ 52 <= q < 2 ^ 53).
  { assert (0 < 2 ^ 52) by (vm_compute; reflexivity).
    assert (0 < 2 ^ 53) by (vm_compute; reflexivity). split; nia. }
  pose proof (round_half_even_bounds n P Hn HP) as Hb. fold q in Hb.
  destruct (Z_le_gt_dec e 970) as [Hle|Hgt].
  - (* the result has an exponent below the largest one *)
    assert (HP' : P <= 2 ^ 970) by (apply Z.pow_le_mono_r; lia).
    assert (C2 : 2 ^ 53 * 2 ^ 970 < 2 ^ 1024 - 2 ^ 970)
      by (vm_compute; reflexivity).
    assert (C3 : 2 ^ 1024 - 2 ^ 970 < 2 ^ 1024) by (vm_compute; reflexivity).
    assert (Hv : Float.round_half_even n P * P <= 2 ^ 53 * 2 ^ 970).
    { apply Z.mul_le_mono_nonneg; lia. }
    replace (Float.round_half_even n P * P <? 2 ^ 1024) with true
      by (symmetry; apply Z.ltb_lt; lia).
    split; [discriminate|]. intros H. exfalso.
    assert (2 ^ 53 * P <= 2 ^ 53 * 2 ^ 970)
      by (apply Z.mul_le_mono_nonneg_l; lia).
    lia.
  - destruct (Z.eq_dec e 971) as [E|E].
    + (* the largest exponent: it depends on the rounding *)
      assert (EP : P = 2 ^ 971) by (subst P; now rewrite E).
      assert (C4 : 2 ^ 1024 = 2 ^ 53 * 2 ^ 971) by (vm_compute; reflexivity).
      assert (C5 : 2 ^ 971 = 2 * 2 ^ 970) by (vm_compute; reflexivity).
      assert (C6 : 0 < 2 ^ 970) by (vm_compute; reflexivity).
      assert (C7 : Z.even (2 ^ 53 - 1) = false) by (vm_compute; reflexivity).
      unfold Float.round_half_even in *. fold q r in Hb |- *.
      rewrite C4, EP in *.
      destruct (2 * r <? 2 ^ 971) eqn:E1.
      * apply Z.ltb_lt in E1.
        replace (q * 2 ^ 971 <? 2 ^ 53 * 2 ^ 971) with true
          by (symmetry; apply Z.ltb_lt; nia).
        split; [discriminate|]. intros H. exfalso. nia.
      * apply Z.ltb_ge in E1.
        assert (Hup : ((if 2 ^ 971 <? 2 * r then q + 1
                        else if Z.even q then q else q + 1) * 2 ^ 971
                       <? 2 ^ 53 * 2 ^ 971) = negb (q =? 2 ^ 53 - 1)).
        { destruct (q =? 2 ^ 53 - 1) eqn:Eq.
          - apply Z.eqb_eq in Eq. rewrite Eq, C7.
            replace (2 ^ 53 - 1 + 1) with (2 ^ 53) by lia.
            destruct (2 ^ 971 <? 2 * r); cbn [negb]; apply Z.ltb_irrefl.
          - apply Z.eqb_neq in Eq. cbn [negb]. apply Z.ltb_lt.
            destruct (2 ^ 971 <? 2 * r); [nia|].
            destruct (Z.even q); nia. }
        rewrite Hup. destruct (q =? 2 ^ 53 - 1) eqn:Eq; cbn [negb].
        -- apply Z.eqb_eq in Eq. split; [intros _; nia | reflexivity].
        -- apply Z.eqb_neq in Eq. split; [discriminate|].
           intros H. exfalso. nia.
    + (* beyond the largest exponent *)
      assert (HP' : 2 ^ 972 <= P) by (apply Z.pow_le_mono_r; lia).
      assert (C8 : 2 ^ 1024 = 2 ^ 52 * 2 ^ 972) by (vm_compute; reflexivity).
      assert (C9 : 0 < 2 ^ 970) by (vm_compute; reflexivity).
      assert (C10 : 0 < 2 ^ 972) by (vm_compute; reflexivity).
      assert (C11 : 0 < 2 ^ 52) by (vm_compute; reflexivity).
      assert (Hv : 2 ^ 1024 <= Float.round_half_even n P * P).
      { rewrite C8. apply Z.mul_le_mono_nonneg; lia. }
      replace (Float.round_half_even n P * P <? 2 ^ 1024) with false
        by (symmetry; apply Z.ltb_ge; lia).
      split; [intros _|reflexivity].
      assert (2 ^ 52 * 2 ^ 972 <= 2 ^ 52 * P)
        by (apply Z.mul_le_mono_nonneg_l; lia).
      lia.
Qed.

(** [float(n)] overflows exactly from [2^1024 - 2^970] on. *)
Lemma float_of_int_none (n : Z) :
  Float.float_of_int n = None <-> 2 ^ 1024 - 2 ^ 970 <= Z.abs n.
Proof.
  unfold Float.float_of_int. destruct (0 <=? n) eqn:E.
  - apply Z.leb_le in E. rewrite Z.abs_eq by exact E.
    now apply float_of_nonneg_none.
  - apply Z.leb_gt in E. rewrite Z.abs_neq by lia.
    rewrite <- (float_of_nonneg_none (- n)) by lia.
    destruct (Float.float_of_nonneg (- n)); cbn [option_map];
      split; congruence.
Qed.

End FloatOfInt.

(** ** The budget filter at the boundary *)

Lemma binary64_Qeq (p q : Q) : (p == q)%Q -> Float.binary64 p -> Float.binary64 q.
Proof.
  intros E (m & e & Hm & He & Hp). exists m, e.
  repeat split; try assumption; try apply He.
  now rewrite <- E.
Qed.

(** *** The conversion of a price to [float64] *)

Lemma to_float64_inject_Z (n : Z) :
  Float.to_float64 (inject_Z n)
  = match Float.float_of_int n with
    | Some x => inject_Z x
    | None => inject_Z n
    end.
Proof.
  unfold Float.to_float64.
  assert (E : Qred (inject_Z n) = inject_Z n).
  { apply Qcanon.Qred_identity. cbn. apply Z.gcd_1_r. }
  rewrite E. reflexivity.
Qed.

Lemma to_float64_Qeq (p q : Q) :
  (p == q)%Q -> (Float.to_float64 p == Float.to_float64 q)%Q.
Proof.
  intros E. unfold Float.to_float64.
  rewrite (Qred_complete _ _ E).
  destruct (Zpos (Qden (Qred q)) =? 1)%Z; [|exact E].
  destruct (Float.float_of_int (Qnum (Qred q))); [reflexivity | exact E].
Qed.

(** A float is left as it is. *)
Lemma to_float64_binary64 (q : Q) :
  Float.binary64 q -> (Float.to_float64 q == q)%Q.
Proof.
  intros Hb. unfold Float.to_float64.
  destruct (Zpos (Qden (Qred q)) =? 1)%Z eqn:E; [|reflexivity].
  apply Z.eqb_eq in E.
  assert (Hq : (q == inject_Z (Qnum (Qred q)))%Q).
  { rewrite <- (Qred_correct q) at 1.
    unfold Qeq. cbn. rewrite E. lia. }
  rewrite (float_of_int_exact (Qnum (Qred q)));
    [now symmetry | eapply binary64_Qeq; eassumption].
Qed.

(** [float(b)] is defined for every budget that is the price of a
    row. *)
Lemma float_of_numeric (p : Q) (b : Z) :
  Float.numeric p -> (p == inject_Z b)%Q ->
  exists x, Float.float_of_int b = Some x.
Proof.
  intros [(n & Hn & En)|Hb] E.
  - assert (b = n).
    { apply (proj1 (inject_Z_injective _ _)). now rewrite <- E, <- En. }
    subst n.
    destruct (Float.float_of_int b) as [x|] eqn:Ex; [now exists x|].
    apply float_of_int_none in Ex.
    assert (C : (2 ^ 63 < 2 ^ 1024 - 2 ^ 970)%Z) by (vm_compute; reflexivity).
    assert (C' : (0 < 2 ^ 63)%Z) by (vm_compute; reflexivity).
    lia.
  - exists b. apply float_of_int_exact. eapply binary64_Qeq; eassumption.
Qed.

(** The budget filter on one row. *)
Lemma budget_filter_both (df : Catalog) (b x : Z) (l : list Row) :
  price_col df = true -> Float.float_of_int b = Some x ->
  budget_filter df (Some b) (Some less) l = Ok (filter (price_leb x) l) /\
  budget_filter df (Some b) (Some more) l = Ok (filter (price_geb x) l) /\
  forall y,
    (In y (filter (price_leb x) l) /\ In y (filter (price_geb x) l)) <->
    (In y l /\
     exists q, r_price y = Some q /\
               (Float.to_float64 q == inject_Z x)%Q).
Proof.
  intros Hp Hx. unfold budget_filter, float. rewrite Hp, Hx. cbn [bind].
  split; [reflexivity|]. split; [reflexivity|].
  intros y. rewrite !filter_In. unfold price_leb, price_geb.
  destruct (r_price y) as [q|].
  - rewrite !Qle_bool_iff. split.
    + intros [[Hy H1] [_ H2]]. split; [exact Hy|].
      exists q. split; [reflexivity | now apply Qle_antisym].
    + intros [Hy (q' & [= <-] & E)]. rewrite E.
      repeat split; try assumption; apply Qle_refl.
  - split; [intros [[_ H] _]; discriminate
           | intros [_ (q & H & _)]; discriminate].
Qed.

(** C4, as amended: a row whose price (a 64-bit integer or a float)
    equals the budget passes the budget filter of [search_products]
    under [less] as well as under [more]: the comparisons are [<=] and
    [>=], made between the price converted to [float64] and
    [float(budget)].  The rows that pass under both directions are
    those whose price, converted to [float64], equals [float(budget)];
    when the budget is a [float64] value, the rows with a [float64]
    price among them are exactly those priced at the budget. *)
Theorem budget_filter_inclusive (df : Catalog) (r : Row) (p : Q) (b : Z)
    (l : list Row) :
  price_col df = true ->
  r_price r = Some p ->
  Float.numeric p ->
  (p == inject_Z b)%Q ->
  In r l ->
  exists x l_less l_more,
    float b = Ok x /\
    budget_filter df (Some b) (Some less) l = Ok l_less /\
    budget_filter df (Some b) (Some more) l = Ok l_more /\
    In r l_less /\ In r l_more /\
    (forall y,
       (In y l_less /\ In y l_more) <->
       (In y l /\
        exists q, r_price y = Some q /\
                  (Float.to_float64 q == inject_Z x)%Q)) /\
    (Float.binary64 (inject_Z b) ->
     forall y q,
       In y l -> r_price y = Some q -> Float.binary64 q ->
       ((In y l_less /\ In y l_more) <-> (q == inject_Z b)%Q)).
Proof.
  intros Hp Hr Hn Heq Hin.
  destruct (float_of_numeric p b Hn Heq) as [x Hx].
  destruct (budget_filter_both df b x l Hp Hx) as (E1 & E2 & Hboth).
  exists x, (filter (price_leb x) l), (filter (price_geb x) l).
  split; [unfold float; now rewrite Hx|].
  split; [exact E1|]. split; [exact E2|].
  assert (Hpx : (Float.to_float64 p == inject_Z x)%Q).
  { rewrite (to_float64_Qeq _ _ Heq), to_float64_inject_Z, Hx.
    reflexivity. }
  assert (Hr2 : In r (filter (price_leb x) l)
                /\ In r (filter (price_geb x) l)).
  { apply Hboth. split; [exact Hin|]. now exists p. }
  split; [apply Hr2|]. split; [apply Hr2|]. split; [exact Hboth|].
  intros Hb y q Hy Hq Hbq.
  assert (x = b).
  { rewrite (float_of_int_exact b Hb) in Hx. congruence. }
  subst x. rewrite Hboth. split.
  - intros [_ (q' & Hq' & E)].
    assert (q' = q) by congruence. subst q'.
    now rewrite <- (to_float64_binary64 q Hbq).
  - intros E. split; [exact Hy|]. exists q. split; [exact Hq|].
    now rewrite (to_float64_binary64 q Hbq).
Qed.

Lemma budget_filter_inclusive_witness :
  exists r, In r (rows tie_df) /\
    exists l_less l_more,
      budget_filter tie_df (Some 50%Z) (Some less) (rows tie_df) = Ok l_less /\
      budget_filter tie_df (Some 50%Z) (Some more) (rows tie_df) = Ok l_more /\
      In r l_less /\ In r l_more.
Proof.
  exists (hd (mkRow None None None None) (rows tie_df)).
  split; [left; reflexivity|].
  destruct (budget_filter_inclusive tie_df
              (hd (mkRow None None None None) (rows tie_df))
              (inject_Z 50) 50%Z (rows tie_df))
    as (x & l1 & l2 & _ & H1 & H2 & H3 & H4 & _).
  - reflexivity.
  - reflexivity.
  - left. exists 50%Z. split; [split; vm_compute; congruence | reflexivity].
  - reflexivity.
  - left. reflexivity.
  - exists l1, l2. auto.
Defined.

(** C4 fails as stated on a column of 64-bit integers: the ring
    priced [2^53 + 1] passes the budget filter for the budget [2^53]
    under [less] and under [more], though it is not priced at the
    budget; the two result sets meet off the boundary. *)
Lemma budget_boundary_counterexample :
  exists r,
    In r (rows ring_df) /\
    r_price r = Some (inject_Z (2 ^ 53 + 1)) /\
    Float.numeric (inject_Z (2 ^ 53 + 1)) /\
    ~ (inject_Z (2 ^ 53 + 1) == inject_Z (2 ^ 53))%Q /\
    exists l_less l_more,
      budget_filter ring_df (Some (2 ^ 53)%Z) (Some less) (rows ring_df)
      = Ok l_less /\
      budget_filter ring_df (Some (2 ^ 53)%Z) (Some more) (rows ring_df)
      = Ok l_more /\
      In r l_less /\ In r l_more.
Proof.
  exists (hd (mkRow None None None None) (rows ring_df)).
  split; [left; reflexivity|]. split; [reflexivity|].
  split.
  { left. exists (2 ^ 53 + 1)%Z.
    split; [split; vm_compute; congruence | reflexivity]. }
  split; [vm_compute; discriminate|].
  eexists. eexists.
  split; [vm_compute; reflexivity|]. split; [vm_compute; reflexivity|].
  split; left; reflexivity.
Qed.

(** ** Characters and prefixes *)

Section Characters.

Lemma space_not_digit c : is_space c = true -> is_digit c = false.
Proof.
  destruct c as [[] [] [] [] [] [] [] []]; vm_compute; congruence.
Qed.

Lemma digit_not_space c : is_digit c = true -> is_space c = false.
Proof.
  destruct c as [[] [] [] [] [] [] [] []]; vm_compute; congruence.
Qed.

Lemma space_not_dollar c s :
  is_space c = true -> strip_prefix (lit "$") (c :: s) = None.
Proof.
  destruct c as [[] [] [] [] [] [] [] []]; vm_compute; congruence.
Qed.

Lemma digit_not_dollar c s :
  is_digit c = true -> strip_prefix (lit "$") (c :: s) = None.
Proof.
  destruct c as [[] [] [] [] [] [] [] []]; vm_compute; congruence.
Qed.

Lemma take_drop_while p (s : text) : take_while p s ++ drop_while p s = s.
Proof.
  induction s as [|c s IH]; [reflexivity|].
  cbn. destruct (p c); [cbn; now rewrite IH | reflexivity].
Qed.

Lemma take_while_all p (s : text) : forallb p (take_while p s) = true.
Proof.
  induction s as [|c s IH]; [reflexivity|].
  cbn. destruct (p c) eqn:E; [cbn; now rewrite E | reflexivity].
Qed.

Lemma drop_while_stops p (s : text) :
  match drop_while p s with c :: _ => p c = false | [] => True end.
Proof.
  induction s as [|c s IH]; [exact I|].
  cbn. destruct (p c) eqn:E; [exact IH | exact E].
Qed.

Lemma firstn_take_while p (s : text) :
  firstn (List.length s - List.length (drop_while p s)) s = take_while p s.
Proof.
  rewrite <- (take_drop_while p s) at 1 3.
  rewrite length_app, Nat.add_sub.
  rewrite firstn_app, Nat.sub_diag, firstn_all, firstn_0. apply app_nil_r.
Qed.

Lemma drop_while_app p (a b : text) :
  forallb p a = true -> drop_while p (a ++ b) = drop_while p b.
Proof.
  induction a as [|c a IH]; [reflexivity|].
  cbn. intros H. apply andb_prop in H as [-> H]. now apply IH.
Qed.


Lemma strip_prefix_app_same (l s : text) : strip_prefix l (l ++ s) = Some s.
Proof.
  induction l as [|c l IH]; [reflexivity|].
  cbn. now rewrite Ascii.eqb_refl.
Qed.

Lemma strip_prefix_inv (l s s' : text) :
  strip_prefix l s = Some s' -> s = l ++ s'.
Proof.
  revert s. induction l as [|c l IH]; intros s; cbn.
  - now intros [= ->].
  - destruct s as [|d s]; [discriminate|].
    destruct (Ascii.eqb c d) eqn:E; [|discriminate].
    apply Ascii.eqb_eq in E as ->. intros H. now rewrite (IH _ H).
Qed.

Lemma strip_prefix_app (a b s : text) :
  strip_prefix (a ++ b) s =
  match strip_prefix a s with
  | Some s' => strip_prefix b s'
  | None => None
  end.
Proof.
  revert s. induction a as [|c a IH]; intros s; [reflexivity|].
  cbn. destruct s as [|d s]; [reflexivity|].
  destruct (Ascii.eqb c d); [apply IH | reflexivity].
Qed.

End Characters.

(** ** The matcher on the repetitions of the budget patterns *)

Section Repetition.

Variable A : Type.

(** When what follows cannot fail, a repetition takes all it can. *)
Lemma star_greedy p prev s (f : text -> A) :
  star p prev s (fun _ s' => Some (f s')) = Some (f (drop_while p s)).
Proof.
  revert prev. induction s as [|c s IH]; intros prev; [reflexivity|].
  cbn. destruct (p c); [now rewrite IH | reflexivity].
Qed.

(** When what follows does not look at the previous character and,
    on an input that begins with a character of the class, either
    fails or does what it does without that character, the repetition
    amounts to skipping the whole run. *)
Lemma star_skips p (k : option ascii -> text -> option A) :
  (forall q q' s, k q s = k q' s) ->
  (forall q c s, p c = true -> k q (c :: s) = None \/ k q (c :: s) = k q s) ->
  forall prev s, star p prev s k = k prev (drop_while p s).
Proof.
  intros Hind Hstep.
  assert (Hnone : forall q s, k q (drop_while p s) = None -> k q s = None).
  { intros q s. induction s as [|c s IH]; [easy|].
    cbn. destruct (p c) eqn:E; [|easy].
    intros H. destruct (Hstep q c s E) as [H'|H']; [exact H'|].
    rewrite H'. now apply IH. }
  intros prev s. revert prev. induction s as [|c s IH]; intros prev; [reflexivity|].
  cbn. destruct (p c) eqn:E; [|reflexivity].
  rewrite IH. destruct (k (Some c) (drop_while p s)) eqn:Ek.
  - rewrite <- Ek. apply Hind.
  - assert (Ek' : k prev (drop_while p s) = None)
      by (rewrite <- Ek; apply Hind).
    rewrite Ek'.
    destruct (Hstep prev c s E) as [H'|H']; [exact H'|].
    rewrite H'. now apply Hnone.
Qed.

End Repetition.

(** ** The budget patterns, position by position *)

Section BudgetPatterns.

Variable A : Type.
Variable f : text -> option text -> A.

(** The end of a search: whatever is left, the match is complete. *)
Let done : option ascii -> text -> option text -> option A :=
  fun _ s' g => Some (f s' g).

Let finish := finish f.

Lemma run_digits prev s g :
  run (Group (Plus is_digit)) prev s g done = finish (scan_digits s).
Proof.
  unfold scan_digits. destruct s as [|c s]; [reflexivity|].
  cbn [run]. destruct (is_digit c) eqn:E; [|reflexivity].
  unfold done.
  rewrite (star_greedy _ is_digit (Some c) s
             (fun s' => f s' (Some (firstn (List.length (c :: s) - List.length s') (c :: s))))).
  assert (Hd : drop_while is_digit (c :: s) = drop_while is_digit s)
    by (cbn [drop_while]; now rewrite E).
  rewrite <- (firstn_take_while is_digit (c :: s)), Hd. reflexivity.
Qed.

Lemma scan_digits_space c s : is_space c = true -> scan_digits (c :: s) = None.
Proof. intros H. unfold scan_digits. now rewrite (space_not_digit _ H). Qed.

Lemma run_space_digits prev s g :
  run (Seq (Star is_space) (Group (Plus is_digit))) prev s g done
  = finish (scan_digits (drop_while is_space s)).
Proof.
  cbn [run].
  rewrite (star_skips _ is_space
             (fun prev' s' => run (Group (Plus is_digit)) prev' s' g done)).
  - apply run_digits.
  - intros q q' s0. now rewrite !run_digits.
  - intros q c s0 Hc. left. now rewrite run_digits, scan_digits_space.
Qed.

Lemma run_dollar_digits prev s g :
  run (Seq (Opt (Lit (lit "$"))) (Seq (Star is_space) (Group (Plus is_digit))))
    prev s g done
  = finish (scan_digits (drop_while is_space (skip_dollar s))).
Proof.
  cbn [run]. unfold skip_dollar.
  destruct (strip_prefix (lit "$") s) as [s'|] eqn:E.
  - rewrite (star_skips _ is_space
               (fun prev' s0 => run (Group (Plus is_digit)) prev' s0 g done)).
    + rewrite run_digits.
      destruct (finish (scan_digits (drop_while is_space s'))) eqn:E1;
        [reflexivity|].
      (* the dollar sign given back: no digit there *)
      rewrite (star_skips _ is_space
                 (fun prev' s0 => run (Group (Plus is_digit)) prev' s0 g done)).
      * rewrite run_digits. apply strip_prefix_inv in E. subst s. reflexivity.
      * intros q q' s0. now rewrite !run_digits.
      * intros q c s0 Hc. left. now rewrite run_digits, scan_digits_space.
    + intros q q' s0. now rewrite !run_digits.
    + intros q c s0 Hc. left. now rewrite run_digits, scan_digits_space.
  - rewrite (star_skips _ is_space
               (fun prev' s0 => run (Group (Plus is_digit)) prev' s0 g done)).
    + apply run_digits.
    + intros q q' s0. now rewrite !run_digits.
    + intros q c s0 Hc. left. now rewrite run_digits, scan_digits_space.
Qed.

Lemma skip_dollar_space c s : is_space c = true -> skip_dollar (c :: s) = c :: s.
Proof. intros H. unfold skip_dollar. now rewrite space_not_dollar. Qed.

(** [\s*\$?\s*(\d+)] at the head of [s]. *)
Lemma run_amount prev s g :
  run amount prev s g done = finish (scan_amount s).
Proof.
  unfold amount. cbn [run].
  rewrite (star_skips _ is_space
             (fun prev' s' =>
                run (Seq (Opt (Lit (lit "$")))
                       (Seq (Star is_space) (Group (Plus is_digit))))
                  prev' s' g done)).
  - apply run_dollar_digits.
  - intros q q' s0. now rewrite !run_dollar_digits.
  - intros q c s0 Hc. rewrite !run_dollar_digits.
    rewrite (skip_dollar_space _ _ Hc). cbn [drop_while]. rewrite Hc.
    unfold skip_dollar.
    destruct (strip_prefix (lit "$") s0) as [s1|] eqn:E; [|now right].
    left. apply strip_prefix_inv in E. subst s0. reflexivity.
Qed.

(** [(?:under|less|below)\s*\$?\s*(\d+)] at the head of [s]. *)
Lemma run_less_pattern prev s g :
  run less_pattern prev s g done = finish (scan_phrase less_keywords s).
Proof.
  unfold less_pattern, less_keywords, scan_phrase.
  cbn [run alts map scan_keywords].
  repeat match goal with
         | |- context [strip_prefix ?l s] =>
             destruct (strip_prefix l s); rewrite ?run_amount;
             try match goal with
                 | |- context [scan_amount ?t] => destruct (scan_amount t) as [[? ?]|]
                 end; cbn [finish]; try reflexivity
         end.
Qed.

(** [(?:more than|above|over|greater(?: than)?)\s*\$?\s*(\d+)] at the
    head of [s]. *)
Lemma run_more_pattern prev s g :
  run more_pattern prev s g done = finish (scan_phrase more_keywords s).
Proof.
  unfold more_pattern, more_keywords, scan_phrase.
  cbn [run map scan_keywords].
  change (lit "greater than") with (lit "greater" ++ lit " than").
  rewrite strip_prefix_app.
  destruct (strip_prefix (lit "more than") s) as [s1|];
    [rewrite run_amount; destruct (scan_amount s1) as [[? ?]|];
     cbn [finish]; [reflexivity|] |];
  (destruct (strip_prefix (lit "above") s) as [s2|];
    [rewrite run_amount; destruct (scan_amount s2) as [[? ?]|];
     cbn [finish]; [reflexivity|] |]);
  (destruct (strip_prefix (lit "over") s) as [s3|];
    [rewrite run_amount; destruct (scan_amount s3) as [[? ?]|];
     cbn [finish]; [reflexivity|] |]);
  (destruct (strip_prefix (lit "greater") s) as [s4|]; [|reflexivity]);
  (destruct (strip_prefix (lit " than") s4) as [s5|];
    [rewrite run_amount; destruct (scan_amount s5) as [[? ?]|];
     cbn [finish]; [reflexivity|] |]);
  rewrite run_amount; destruct (scan_amount s4) as [[? ?]|]; reflexivity.
Qed.

(** [\s*\$?(\d+)] at the head of [s]. *)
Lemma run_short_amount prev s g :
  run (Seq (Star is_space) (Seq (Opt (Lit (lit "$"))) (Group (Plus is_digit))))
    prev s g done
  = finish (scan_short_amount s).
Proof.
  assert (Hd : forall q s0,
             run (Seq (Opt (Lit (lit "$"))) (Group (Plus is_digit))) q s0 g done
             = finish (scan_digits (skip_dollar s0))).
  { intros q s0.
    change (run (Seq (Opt (Lit (lit "$"))) (Group (Plus is_digit))) q s0 g done)
      with (match match strip_prefix (lit "$") s0 with
                  | Some s' =>
                      run (Group (Plus is_digit)) (last_char (lit "$") q) s' g
                        done
                  | None => None
                  end with
            | Some a => Some a
            | None => run (Group (Plus is_digit)) q s0 g done
            end).
    unfold skip_dollar.
    destruct (strip_prefix (lit "$") s0) as [s'|] eqn:E; [|apply run_digits].
    rewrite !run_digits.
    destruct (finish (scan_digits s')); [reflexivity|].
    apply strip_prefix_inv in E. now subst s0. }
  cbn [run].
  rewrite (star_skips _ is_space
             (fun prev' s' =>
                run (Seq (Opt (Lit (lit "$"))) (Group (Plus is_digit)))
                  prev' s' g done)).
  - apply Hd.
  - intros q q' s0. now rewrite !Hd.
  - intros q c s0 Hc. left.
    now rewrite Hd, (skip_dollar_space _ _ Hc), scan_digits_space.
Qed.

(** [(?:under|less|below|more than|above|over|greater)\s*\$?(\d+)] at
    the head of [s]. *)
Lemma run_budget_phrase prev s g :
  run budget_phrase prev s g done
  = finish (scan_keywords scan_short_amount guard_keywords s).
Proof.
  unfold budget_phrase, guard_keywords.
  set (tail := Seq (Star is_space) _).
  cbn [run alts map scan_keywords].
  repeat match goal with
         | |- context [strip_prefix ?l s] =>
             destruct (strip_prefix l s) as [?|];
             try (unfold tail; rewrite run_short_amount);
             try match goal with
                 | |- context [scan_short_amount ?t] =>
                     destruct (scan_short_amount t) as [[? ?]|]
                 end; cbn [finish]; try reflexivity
         end.
Qed.

End BudgetPatterns.

(** ** [re.search] as a scan for the leftmost position *)

Section Search.

Variable r : regex.
Variable here : text -> option (text * text).

(** The pattern matches at a position as [here] tells, whatever
    stands before. *)
Hypothesis run_here :
  forall (A : Type) (f : text -> option text -> A) prev s g,
    run r prev s g (fun _ s' g' => Some (f s' g')) = finish f (here s).

Lemma match_here_spec prev s pos :
  match_here r prev s pos =
  match here s with
  | Some (ds, rest) =>
      Some (MatchObj pos (pos + (List.length s - List.length rest)) (Some ds))
  | None => None
  end.
Proof.
  unfold match_here.
  rewrite (run_here _ (fun s' g' => MatchObj pos (pos + (List.length s - List.length s')) g')).
  now destruct (here s) as [[ds rest]|].
Qed.

Lemma search_from_some prev s pos m :
  search_from r prev s pos = Some m ->
  exists pre suf ds rest,
    s = pre ++ suf /\ here suf = Some (ds, rest) /\
    m_group1 m = Some ds /\
    forall pre' suf',
      s = pre' ++ suf' -> List.length pre' < List.length pre ->
      here suf' = None.
Proof.
  revert prev pos. induction s as [|c s IH]; intros prev pos.
  - cbn [search_from]. rewrite match_here_spec.
    destruct (here []) as [[ds rest]|] eqn:E; [|discriminate].
    intros [= <-]. exists [], [], ds, rest.
    repeat split; try assumption. intros pre' suf' _ H. inversion H.
  - cbn [search_from]. rewrite match_here_spec.
    destruct (here (c :: s)) as [[ds rest]|] eqn:E.
    + intros [= <-]. exists [], (c :: s), ds, rest.
      repeat split; try assumption. intros pre' suf' _ H. inversion H.
    + intros H. apply IH in H as (pre & suf & ds & rest & -> & Hh & Hg & Hmin).
      exists (c :: pre), suf, ds, rest.
      repeat split; try assumption.
      intros pre' suf' Hs Hlen. destruct pre' as [|c' pre'].
      * cbn in Hs. now subst suf'.
      * cbn in Hs. injection Hs as -> Hs.
        apply (Hmin pre' suf' Hs). cbn in Hlen. lia.
Qed.

Lemma search_from_none prev s pos :
  search_from r prev s pos = None ->
  forall pre suf, s = pre ++ suf -> here suf = None.
Proof.
  revert prev pos. induction s as [|c s IH]; intros prev pos.
  - cbn [search_from]. rewrite match_here_spec.
    destruct (here []) as [[ds rest]|] eqn:E; [discriminate|].
    intros _ pre suf H. symmetry in H. apply app_eq_nil in H as [_ ->].
    exact E.
  - cbn [search_from]. rewrite match_here_spec.
    destruct (here (c :: s)) as [[ds rest]|] eqn:E; [discriminate|].
    intros H pre suf Hs. destruct pre as [|c' pre].
    + cbn in Hs. now subst suf.
    + cbn in Hs. injection Hs as -> Hs. eapply IH; eassumption.
Qed.

End Search.

(** ** The scan and the phrases it finds *)

Section Phrases.

Lemma scan_digits_sound s ds rest :
  scan_digits s = Some (ds, rest) ->
  s = ds ++ rest /\ ds <> [] /\ forallb is_digit ds = true /\
  no_digit_ahead rest.
Proof.
  unfold scan_digits. destruct s as [|c s]; [discriminate|].
  pose proof (take_drop_while is_digit (c :: s)) as H1.
  pose proof (take_while_all is_digit (c :: s)) as H2.
  pose proof (drop_while_stops is_digit (c :: s)) as H3.
  assert (H4 : is_digit c = true -> take_while is_digit (c :: s) <> [])
    by (intros E; cbn [take_while]; rewrite E; discriminate).
  remember (take_while is_digit (c :: s)) as tw.
  remember (drop_while is_digit (c :: s)) as dw.
  destruct (is_digit c) eqn:E; [|discriminate].
  intros [= <- <-]. auto.
Qed.

Lemma scan_digits_complete ds rest :
  ds <> [] -> forallb is_digit ds = true -> scan_digits (ds ++ rest) <> None.
Proof.
  destruct ds as [|c ds]; [congruence|].
  intros _ H. cbn in H. apply andb_prop in H as [Hc _].
  cbn. rewrite Hc. discriminate.
Qed.

Lemma scan_amount_sound s ds rest :
  scan_amount s = Some (ds, rest) ->
  amount_at s ds rest /\ no_digit_ahead rest.
Proof.
  unfold scan_amount. intros H.
  apply scan_digits_sound in H as (Hs & Hne & Hd & Hrest).
  split; [|exact Hrest].
  exists (take_while is_space s).
  set (s1 := drop_while is_space s) in *.
  exists (match strip_prefix (lit "$") s1 with Some _ => lit "$" | None => [] end).
  exists (take_while is_space (skip_dollar s1)).
  split; [apply take_while_all|].
  split; [destruct (strip_prefix (lit "$") s1); auto|].
  split; [apply take_while_all|].
  split; [exact Hne|]. split; [exact Hd|].
  rewrite <- Hs, take_drop_while.
  rewrite <- (take_drop_while is_space s) at 1. fold s1. f_equal.
  unfold skip_dollar.
  destruct (strip_prefix (lit "$") s1) as [s2|] eqn:E; [|reflexivity].
  now apply strip_prefix_inv in E.
Qed.

Lemma scan_amount_complete s ds rest :
  amount_at s ds rest -> scan_amount s <> None.
Proof.
  intros (ws1 & dollar & ws2 & H1 & Hd & H2 & Hne & Hds & ->).
  unfold scan_amount. rewrite (drop_while_app _ _ _ H1).
  assert (Ha : drop_while is_space (ds ++ rest) = ds ++ rest).
  { destruct ds as [|c ds]; [congruence|].
    cbn in Hds. apply andb_prop in Hds as [Hc _].
    cbn. now rewrite (digit_not_space _ Hc). }
  assert (Hb : drop_while is_space (ws2 ++ ds ++ rest) = ds ++ rest)
    by (now rewrite (drop_while_app _ _ _ H2)).
  assert (Hc : skip_dollar (ds ++ rest) = ds ++ rest).
  { destruct ds as [|c ds]; [congruence|].
    cbn in Hds. apply andb_prop in Hds as [Hc _].
    unfold skip_dollar. cbn [app]. now rewrite (digit_not_dollar _ _ Hc). }
  destruct Hd as [-> | ->].
  - cbn [app]. rewrite Hb, Hc, Ha. now apply scan_digits_complete.
  - change (drop_while is_space (lit "$" ++ ws2 ++ ds ++ rest))
      with (lit "$" ++ ws2 ++ ds ++ rest).
    change (skip_dollar (lit "$" ++ ws2 ++ ds ++ rest))
      with (ws2 ++ ds ++ rest).
    rewrite Hb. now apply scan_digits_complete.
Qed.

Lemma scan_keywords_sound tail kws s x :
  scan_keywords tail kws s = Some x ->
  exists kw mid, In kw kws /\ s = kw ++ mid /\ tail mid = Some x.
Proof.
  induction kws as [|kw kws IH]; [discriminate|].
  cbn [scan_keywords].
  destruct (strip_prefix kw s) as [mid|] eqn:E.
  - destruct (tail mid) as [y|] eqn:Ea.
    + intros [= ->]. exists kw, mid.
      repeat split; [now left | now apply strip_prefix_inv | exact Ea].
    + intros H. destruct (IH H) as (kw' & mid' & Hin & Hrest).
      exists kw', mid'. split; [now right | exact Hrest].
  - intros H. destruct (IH H) as (kw' & mid' & Hin & Hrest).
    exists kw', mid'. split; [now right | exact Hrest].
Qed.

Lemma scan_keywords_complete tail kws kw mid :
  In kw kws -> tail mid <> None -> scan_keywords tail kws (kw ++ mid) <> None.
Proof.
  intros Hin Ha. induction kws as [|kw' kws IH]; [destruct Hin|].
  cbn [scan_keywords].
  destruct Hin as [-> | Hin].
  - rewrite strip_prefix_app_same.
    destruct (tail mid) eqn:E; [discriminate | congruence].
  - destruct (match strip_prefix kw' (kw ++ mid) with
              | Some mid0 => tail mid0
              | None => None
              end); [discriminate | now apply IH].
Qed.

Lemma scan_phrase_sound kws s ds rest :
  scan_phrase kws s = Some (ds, rest) ->
  exists kw mid,
    In kw kws /\ s = kw ++ mid /\ amount_at mid ds rest /\
    no_digit_ahead rest.
Proof.
  intros H. apply scan_keywords_sound in H as (kw & mid & Hin & -> & H).
  apply scan_amount_sound in H as [Ha Hr]. now exists kw, mid.
Qed.

Lemma scan_phrase_complete kws kw mid ds rest :
  In kw kws -> amount_at mid ds rest -> scan_phrase kws (kw ++ mid) <> None.
Proof.
  intros Hin Ha. apply scan_keywords_complete; [exact Hin|].
  eapply scan_amount_complete; exact Ha.
Qed.









(** What a search for a budget pattern finds, in terms of phrases. *)
Lemma search_phrase r kws t :
  (forall (A : Type) (f : text -> option text -> A) prev s g,
     run r prev s g (fun _ s' g' => Some (f s' g'))
     = finish f (scan_phrase kws s)) ->
  match search r t with
  | Some m =>
      exists ds, m_group1 m = Some ds /\ first_phrase kws t ds
  | None => ~ has_phrase kws t
  end.
Proof.
  intros Hrun. unfold search.
  destruct (search_from r None t 0) as [m|] eqn:E.
  - apply (search_from_some r _ Hrun) in E
      as (pre & suf & ds & rest & -> & Hh & Hg & Hmin).
    exists ds. split; [exact Hg|].
    apply scan_phrase_sound in Hh as (kw & mid & Hin & -> & Ha & Hr).
    exists pre, rest. split; [now exists kw, mid|]. split; [exact Hr|].
    intros pre' ds' rest' (kw' & mid' & Hin' & Hs & Ha').
    destruct (Nat.le_gt_cases (List.length pre) (List.length pre')) as [|Hlt];
      [assumption|].
    apply (Hmin pre' (kw' ++ mid') Hs) in Hlt.
    now apply (scan_phrase_complete kws kw' mid' ds' rest') in Hlt.
  - intros (pre & ds & rest & kw & mid & Hin & Hs & Ha).
    apply (search_from_none r _ Hrun _ _ _ E pre (kw ++ mid)) in Hs.
    now apply (scan_phrase_complete kws kw mid ds rest) in Hs.
Qed.

End Phrases.




Lemma int_of_digits_nonneg ds :
  forallb is_digit ds = true -> (0 <= int_of_digits ds)%Z.
Proof.
  unfold int_of_digits.
  assert (H : forall acc, (0 <= acc)%Z -> forallb is_digit ds = true ->
                          (0 <= fold_left (fun a c => 10 * a + digit_val c)%Z
                                  ds acc)%Z).
  { induction ds as [|c ds IH]; intros acc Hacc Hd; [exact Hacc|].
    cbn [forallb] in Hd. apply andb_prop in Hd as [Hc Hd].
    cbn [fold_left]. apply IH; [|exact Hd].
    assert (0 <= digit_val c)%Z; [|lia].
    unfold digit_val, is_digit, between in *.
    apply andb_prop in Hc as [Hc _]. apply N.leb_le in Hc. lia. }
  apply H. lia.
Qed.

Lemma first_phrase_digits kws t ds :
  first_phrase kws t ds -> forallb is_digit ds = true.
Proof.
  intros (pre & rest & (kw & mid & _ & _ & Ha) & _).
  destruct Ha as (ws1 & dollar & ws2 & _ & _ & _ & _ & Hd & _). exact Hd.
Qed.

Lemma first_phrase_has kws t ds : first_phrase kws t ds -> has_phrase kws t.
Proof. intros (pre & rest & Hp & _). now exists pre, ds, rest. Qed.

(** The outcomes of the block "budget and direction": a budget that
    is not negative with its direction, neither of them, or
    [ValueError] on a phrase of more than 4300 digits. *)
Lemma budget_and_direction_shape (t : text) :
  match budget_and_direction t with
  | Ok (Some n, Some d) =>
      (0 <= n)%Z /\
      (has_phrase less_keywords t \/ has_phrase more_keywords t)
  | Ok (None, None) =>
      ~ has_phrase less_keywords t /\ ~ has_phrase more_keywords t
  | Ok _ => False
  | Raised e =>
      e = ValueError /\
      exists kws ds,
        (kws = less_keywords \/ kws = more_keywords) /\
        first_phrase kws t ds /\ max_str_digits < List.length ds
  end.
Proof.
  pose proof (search_phrase less_pattern less_keywords t
                (fun A f => run_less_pattern A f)) as Hl.
  pose proof (search_phrase more_pattern more_keywords t
                (fun A f => run_more_pattern A f)) as Hm.
  assert (Hint : forall kws ds (d : direction),
             (kws = less_keywords \/ kws = more_keywords) ->
             first_phrase kws t ds ->
             match (b <- int ds ;; Ok (Some b, Some d)) with
             | Ok (Some n, Some d) =>
                 (0 <= n)%Z /\
                 (has_phrase less_keywords t \/ has_phrase more_keywords t)
             | Ok (None, None) =>
                 ~ has_phrase less_keywords t /\
                 ~ has_phrase more_keywords t
             | Ok _ => False
             | Raised e =>
                 e = ValueError /\
                 exists kws ds,
                   (kws = less_keywords \/ kws = more_keywords) /\
                   first_phrase kws t ds /\ max_str_digits < List.length ds
             end).
  { intros kws ds d Hk Hf. unfold int.
    destruct (max_str_digits <? List.length ds) eqn:E; cbn [bind].
    - apply Nat.ltb_lt in E. split; [reflexivity|]. now exists kws, ds.
    - split; [apply int_of_digits_nonneg;
               now apply (first_phrase_digits kws t ds)|].
      destruct Hk as [-> | ->]; [left|right];
        now apply first_phrase_has in Hf. }
  unfold budget_and_direction.
  destruct (search less_pattern t) as [ml|].
  - destruct Hl as (ds & Hg & Hf). unfold group_int. rewrite Hg.
    apply (Hint less_keywords ds less); [now left | exact Hf].
  - destruct (search more_pattern t) as [mm|].
    + destruct Hm as (ds & Hg & Hf). unfold group_int. rewrite Hg.
      apply (Hint more_keywords ds more); [now right | exact Hf].
    + now split.
Qed.

(** What [extract_filters] returns, from what its first block does. *)
Lemma extract_filters_frame (df : Catalog) (u : text) :
  extract_filters df u
  = (bp <- budget_and_direction (lower u) ;;
     Ok (found_item df (lower u), found_color (lower u), fst bp, snd bp)).
Proof. reflexivity. Qed.


(** ** The guard of the short-circuit and the extraction *)

Section Guard.

Lemma lower_char_idem c : lower_char (lower_char c) = lower_char c.
Proof. destruct c as [[] [] [] [] [] [] [] []]; reflexivity. Qed.

Lemma lower_idem t : lower (lower t) = lower t.
Proof.
  unfold lower. rewrite map_map. apply map_ext. intros c. apply lower_char_idem.
Qed.

Lemma lowered_fixed v :
  Forall (fun c => lower_char c = c) v -> lower v = v.
Proof.
  unfold lower. induction 1 as [|c v Hc _ IH]; [reflexivity|].
  cbn [map]. now rewrite Hc, IH.
Qed.

Lemma lower_is_lowered u : Forall (fun c => lower_char c = c) (lower u).
Proof.
  induction u as [|c u IH]; constructor; [apply lower_char_idem | exact IH].
Qed.

Lemma drop_while_Forall (P : ascii -> Prop) p v :
  Forall P v -> Forall P (drop_while p v).
Proof.
  induction 1 as [|c v Hc Hv IH]; [constructor|].
  cbn. destruct (p c); [exact IH | now constructor].
Qed.

(** The text [generate_reply] works on is in lower case already. *)
Lemma lower_strip_lower u : lower (strip (lower u)) = strip (lower u).
Proof.
  apply lowered_fixed. unfold strip.
  apply Forall_rev, drop_while_Forall, Forall_rev, drop_while_Forall.
  apply lower_is_lowered.
Qed.


Lemma scan_digits_no_space s x :
  scan_digits s = Some x -> drop_while is_space s = s.
Proof.
  unfold scan_digits. destruct s as [|c s]; [discriminate|].
  destruct (is_digit c) eqn:E; [|discriminate].
  intros _. cbn. now rewrite (digit_not_space _ E).
Qed.

(** The price tag of the guard is a price tag of the extraction. *)
Lemma scan_short_amount_amount s x :
  scan_short_amount s = Some x -> scan_amount s = Some x.
Proof.
  unfold scan_short_amount, scan_amount. intros H.
  now rewrite (scan_digits_no_space _ _ H).
Qed.

Lemma guard_keywords_split kw :
  In kw guard_keywords -> In kw less_keywords \/ In kw more_keywords.
Proof.
  unfold guard_keywords, less_keywords, more_keywords. cbn [map].
  intros H.
  repeat (destruct H as [<-|H]; [cbn; tauto|]). destruct H.
Qed.

(** What passes the guard holds a budget phrase of one of the two
    families. *)
Lemma guard_has_phrase t :
  has_budget_phrase t = true ->
  has_phrase less_keywords t \/ has_phrase more_keywords t.
Proof.
  unfold has_budget_phrase, search.
  destruct (search_from budget_phrase None t 0) as [m|] eqn:E;
    [|discriminate].
  intros _.
  apply (search_from_some budget_phrase
           (scan_keywords scan_short_amount guard_keywords)
           (fun A f => run_budget_phrase A f)) in E
    as (pre & suf & ds & rest & -> & Hh & _).
  apply scan_keywords_sound in Hh as (kw & mid & Hin & -> & Hs).
  apply scan_short_amount_amount, scan_amount_sound in Hs as [Ha _].
  destruct (guard_keywords_split kw Hin) as [H|H]; [left|right];
    exists pre, ds, rest, kw, mid; auto.
Qed.

(** On a lowercase text that passes the guard, [extract_filters]
    reads a budget and a direction, unless [int] refuses the digits. *)
Lemma guard_implies_budget df t :
  lower t = t ->
  has_budget_phrase t = true ->
  match extract_filters df t with
  | Ok (_, _, b, pt) => exists n d, b = Some n /\ pt = Some d
  | Raised e => e = ValueError
  end.
Proof.
  intros Hl Hg. apply guard_has_phrase in Hg.
  rewrite extract_filters_frame, Hl.
  pose proof (budget_and_direction_shape t) as H.
  destruct (budget_and_direction t) as [[[n|] [d|]]|e]; cbn [bind fst snd];
    try contradiction.
  - eauto.
  - tauto.
  - apply H.
Qed.

(** [extract_filters] raises nothing but [ValueError], and only on a
    budget phrase of more than 4300 digits. *)
Lemma extract_filters_raises df t e :
  extract_filters df t = Raised e ->
  e = ValueError /\
  exists kws ds,
    (kws = less_keywords \/ kws = more_keywords) /\
    first_phrase kws (lower t) ds /\ max_str_digits < List.length ds.
Proof.
  rewrite extract_filters_frame.
  pose proof (budget_and_direction_shape (lower t)) as H.
  destruct (budget_and_direction (lower t)) as [bp|e0]; cbn [bind];
    [discriminate|].
  intros [= <-]. exact H.
Qed.

End Guard.

(** ** A catalog whose prices all differ is sorted one way only *)

Section DistinctPrices.

Lemma price_lt_dec_not_le x y : price_lt_dec x y = true -> ~ price_le y x.
Proof.
  unfold price_lt_dec. intros H. apply andb_prop in H as [_ H].
  apply negb_true_iff in H. intros Hle.
  apply price_le_dec_spec in Hle. congruence.
Qed.

Lemma sorted_perm_unique (l2 l1 : list Row) :
  Permutation l1 l2 -> StronglySorted price_le l1 ->
  strictly_increasing l2 = true -> l1 = l2.
Proof.
  revert l1. induction l2 as [|x t IH]; intros l1 HP HS Hinc.
  - now apply Permutation_sym, Permutation_nil in HP.
  - cbn in Hinc. apply andb_prop in Hinc as [Hx Hinc].
    rewrite forallb_forall in Hx.
    destruct l1 as [|y l1'].
    + apply Permutation_nil in HP. discriminate.
    + inversion HS as [|? ? HS' Hall]; subst.
      rewrite Forall_forall in Hall.
      assert (Hy : In y (x :: t))
        by (eapply Permutation_in; [exact HP | now left]).
      assert (Hxin : In x (y :: l1'))
        by (eapply Permutation_in; [apply Permutation_sym, HP | now left]).
      assert (E : y = x).
      { destruct Hy as [Hy|Hy]; [now symmetry|].
        destruct Hxin as [Hxy|Hxin]; [exact Hxy|].
        exfalso. apply (price_lt_dec_not_le x y (Hx y Hy)).
        now apply Hall. }
      subst y. f_equal. apply IH; [|assumption|assumption].
      eapply Permutation_cons_inv; exact HP.
Qed.

Lemma sort_values_distinct (S : Sorter) l :
  strictly_increasing (stable_sort l) = true ->
  sort_values S l = stable_sort l.
Proof.
  intros H. apply sorted_perm_unique; [|apply sort_values_sorted|exact H].
  eapply Permutation_trans;
    [apply Permutation_sym, sort_values_perm | apply stable_sort_perm].
Qed.

(** When the rows left after the filters have different prices, the
    choice of the sorting routine does not show. *)
Lemma search_products_distinct (S : Sorter) df i c b pt :
  match budget_filter df b pt
          (text_filter (color_col df) r_color c
             (text_filter (item_col df) r_item i (rows df))) with
  | Ok l => strictly_increasing (stable_sort (drop_unpriced df l)) = true
  | Raised _ => True
  end ->
  search_products S df i c b pt = search_products stable_sorter df i c b pt.
Proof.
  unfold search_products.
  destruct (budget_filter df b pt _) as [l|e]; [|reflexivity].
  intros H. cbn [bind]. f_equal. unfold sorted_head.
  destruct (drop_unpriced df l) as [|x l']; [reflexivity|].
  destruct (price_col df); [|reflexivity].
  now rewrite (sort_values_distinct S _ H).
Qed.

End DistinctPrices.

(** ** One turn of the conversation, branch by branch *)

Section Turns.

Variable S : Sorter.
Variable df : Catalog.
Variable ctx : context.
Variable u : text.

Let t := strip (lower u).

(** A stop phrase ends the turn: farewell, slots emptied, no search. *)
Lemma stop_turn :
  is_stop t = true ->
  generate_reply S df ctx u
  = mkTurn (Ok farewell) (mkContext None None None None greet) [].
Proof. intros H. unfold generate_reply. fold t. now rewrite H. Qed.

(** The budget short-circuit: only the budget and the direction are
    written, and one search is run on the slots as they are then;
    when [extract_filters] raises, nothing is written and no search
    is run. *)
Lemma budget_turn :
  is_stop t = false -> has_budget_phrase t = true ->
  generate_reply S df ctx u
  = match extract_filters df t with
    | Raised e => mkTurn (Raised e) ctx []
    | Ok (_, _, b, pt) =>
        mkTurn
          (search_and_render S df (item ctx) (color ctx) b pt
             (no_match_in_range (item ctx)))
          (mkContext (item ctx) (color ctx) b pt (step ctx))
          [mkCall (item ctx) (color ctx) b pt]
    end.
Proof.
  intros H1 H2. unfold generate_reply. fold t. rewrite H1, H2.
  now destruct (extract_filters df t) as [[[[i c] b] pt]|e].
Qed.

(** X17: on the path of the budget short-circuit (no stop phrase, a
    budget phrase in the text that the guard pattern accepts) either
    [extract_filters] reads a budget and a direction in, both are
    written to the slots and one search is run with them, or the
    phrase that [extract_filters] reads has more than 4300 digits,
    [int] raises [ValueError], nothing is written and no search is
    run. *)
Lemma budget_turn_budget :
  is_stop t = false -> has_budget_phrase t = true ->
  (exists n d,
     budget (ctx_after (generate_reply S df ctx u)) = Some n /\
     price_type (ctx_after (generate_reply S df ctx u)) = Some d /\
     searches (generate_reply S df ctx u)
     = [mkCall (item ctx) (color ctx) (Some n) (Some d)]) \/
  (generate_reply S df ctx u = mkTurn (Raised ValueError) ctx [] /\
   exists kws ds,
     (kws = less_keywords \/ kws = more_keywords) /\
     first_phrase kws t ds /\ 4300 < List.length ds).
Proof.
  intros H1 H2. rewrite (budget_turn H1 H2).
  pose proof (guard_implies_budget df t (lower_strip_lower u) H2) as Hg.
  pose proof (extract_filters_raises df t) as Hr.
  replace (lower t) with t in Hr by (symmetry; apply lower_strip_lower).
  destruct (extract_filters df t) as [[[[i c] b] pt]|e].
  - left. destruct Hg as (n & d & -> & ->). exists n, d.
    cbn [ctx_after budget price_type searches]. auto.
  - right. destruct (Hr e eq_refl) as [-> Hd]. split; [reflexivity|].
    exact Hd.
Qed.

(** The rendering of a search that does not raise: the results or
    the other message. *)
Lemma search_and_render_ok i c b pt other :
  (price_col df = false \/
   match b with Some n => Float.float_of_int n <> None | None => True end) ->
  (exists rs, search_and_render S df i c b pt other
              = Ok (respond_like_bot df rs i c b pt)) \/
  search_and_render S df i c b pt other = Ok other.
Proof.
  intros H. unfold search_and_render, search_products.
  assert (Hb : exists l, budget_filter df b pt
                 (text_filter (color_col df) r_color c
                    (text_filter (item_col df) r_item i (rows df))) = Ok l).
  { unfold budget_filter. destruct b as [n|]; [|eauto].
    destruct (price_col df); [|eauto].
    destruct H as [H|H]; [discriminate|].
    unfold float. destruct (Float.float_of_int n); [|congruence].
    destruct pt as [[]|]; cbn [bind]; eauto. }
  destruct Hb as [l ->]. cbn [bind].
  destruct (non_empty (sorted_head S df (drop_unpriced df l))) as [rs|];
    [left; now exists rs | now right].
Qed.

End Turns.

(** ** The scenarios *)

Local Open Scope string_scope.

(** C5 fails on an utterance of more than one line: [.] does not match
    a line break, so [.*\bstop\b.*] cannot cover the whole text.
    "stop", line break, "please", said while the color is being asked,
    is not taken as a stop phrase: the slots stay as they are, the
    step moves on to the budget and the reply asks for it. *)
Theorem stop_phrase_on_two_lines (S : Sorter) :
  contains (lit "stop") (strip (lower stop_on_two_lines)) = true /\
  is_stop (strip (lower stop_on_two_lines)) = false /\
  generate_reply S fallback_df (jeans_context ask_color) stop_on_two_lines
  = mkTurn (Ok ask_for_budget) (jeans_context ask_budget) [].
Proof. repeat split; vm_compute; reflexivity. Qed.

(** C6 fails on "greater than 50": [extract_filters] reads a budget in
    it (50, direction [more]), but the pattern that guards the budget
    short-circuit has no "than" after "greater", so no search is run
    and the turn is an ordinary step of the guided flow.  Besides,
    when the short-circuit is taken with a budget too large for
    [float], the search raises instead of answering. *)
Theorem budget_phrase_not_short_circuited (S : Sorter) :
  let u := lit "greater than 50" in
  (exists found_item found_color,
     extract_filters fallback_df u
     = Ok (found_item, found_color, Some 50%Z, Some more)) /\
  is_stop (strip (lower u)) = false /\
  has_budget_phrase (strip (lower u)) = false /\
  generate_reply S fallback_df initial_context u
  = mkTurn (Ok ask_for_item) (mkContext None None None None ask_item) [] /\
  reply (generate_reply S fallback_df initial_context under_huge_budget)
  = Raised OverflowError.
Proof.
  split; [eexists; eexists; vm_compute; reflexivity|].
  repeat split; vm_compute; reflexivity.
Qed.

(** C7 fails: "blue jeans under 80" said at the start of a session
    takes the budget short-circuit, which searches with the item and
    color slots of the session (both empty), not with the item of the
    utterance.  The search runs with budget 80 and direction [less]
    only and returns the three cheapest products under 80; the Blue
    Jeans row, at $49.99, is the third of them. *)
Theorem blue_jeans_under_80 (S : Sorter) :
  let turn :=
    generate_reply S fallback_df initial_context (lit "blue jeans under 80") in
  searches turn = [mkCall None None (Some 80%Z) (Some less)] /\
  ctx_after turn = mkContext None None (Some 80%Z) (Some less) greet /\
  search_products S fallback_df None None (Some 80%Z) (Some less)
  = Ok (Some [fallback_row "Yellow Scarf" "Accessories" "Yellow" 1499;
              fallback_row "White T-Shirt" "Tops" "White" 1999;
              fallback_row "Blue Jeans" "Bottoms" "Blue" 4999]) /\
  reply turn
  = Ok ("Here are some  items under $80 🛍️" ++ nl ++ nl
        ++ "✨ **Yellow Scarf** — $14.99" ++ nl
        ++ "   Category: Accessories | Color: Yellow" ++ nl ++ nl
        ++ "✨ **White T-Shirt** — $19.99" ++ nl
        ++ "   Category: Tops | Color: White" ++ nl ++ nl
        ++ "✨ **Blue Jeans** — $49.99" ++ nl
        ++ "   Category: Bottoms | Color: Blue" ++ nl ++ nl
        ++ "Would you like me to show *similar* or *cheaper* options next?").
Proof.
  intros turn.
  assert (Hs : search_products S fallback_df None None (Some 80%Z) (Some less)
               = search_products stable_sorter fallback_df None None
                   (Some 80%Z) (Some less))
    by (apply search_products_distinct; vm_compute; reflexivity).
  assert (Ht : turn = generate_reply stable_sorter fallback_df initial_context
                        (lit "blue jeans under 80")).
  { subst turn.
    assert (H1 : is_stop (strip (lower (lit "blue jeans under 80"))) = false)
      by (vm_compute; reflexivity).
    assert (H2 : has_budget_phrase
                   (strip (lower (lit "blue jeans under 80"))) = true)
      by (vm_compute; reflexivity).
    rewrite (budget_turn S fallback_df initial_context _ H1 H2),
            (budget_turn stable_sorter fallback_df initial_context _ H1 H2).
    replace (extract_filters fallback_df
               (strip (lower (lit "blue jeans under 80"))))
      with (Ok (Some (lit "blue jeans"), Some (lit "blue"), Some 80%Z,
                Some less))
      by (vm_compute; reflexivity).
    f_equal. unfold search_and_render.
    change (item initial_context) with (@None text).
    change (color initial_context) with (@None text).
    now rewrite Hs. }
  rewrite Ht, Hs. repeat split; vm_compute; reflexivity.
Qed.

(** C8 fails as stated: the extractor returns the lowercased name of
    the catalog item it found in the utterance, and the fallback
    catalog has "Red Dress", not "Dress". *)
Lemma red_dress_counterexample :
  ~ ((exists found_color budget price_type,
        extract_filters fallback_df (lit "red dress")
        = Ok (Some (lit "dress"), found_color, budget, price_type)) /\
     ctx_after (generate_reply stable_sorter fallback_df
                  (mkContext None None None None ask_item) (lit "red dress"))
     = mkContext (Some (lit "dress")) (Some (lit "red")) None None ask_color).
Proof.
  intros [(c & b & pt & H) _]. vm_compute in H. discriminate H.
Qed.

(** C8, amended: in step [ask_item] with the fallback catalog, on
    "red dress" the extractor finds the item "red dress" and the color
    "red"; both are written to the slots, the step becomes
    [ask_color], no search is run and the reply asks for a color
    preference for the red dress. *)
Theorem red_dress_in_ask_item (S : Sorter) (ctx : context) :
  step ctx = ask_item ->
  extract_filters fallback_df (lit "red dress")
  = Ok (Some (lit "red dress"), Some (lit "red"), None, None) /\
  generate_reply S fallback_df ctx (lit "red dress")
  = mkTurn
      (Ok "Nice choice! 🎯 Do you have a color preference for your red dress?")
      (mkContext (Some (lit "red dress")) (Some (lit "red"))
         (budget ctx) (price_type ctx) ask_color)
      [].
Proof.
  intros Hstep. split; [vm_compute; reflexivity|].
  unfold generate_reply. rewrite Hstep.
  replace (is_stop (strip (lower (lit "red dress")))) with false
    by (vm_compute; reflexivity).
  replace (has_budget_phrase (strip (lower (lit "red dress")))) with false
    by (vm_compute; reflexivity).
  replace (extract_filters fallback_df (strip (lower (lit "red dress"))))
    with (Ok (Some (lit "red dress"), Some (lit "red"), @None Z,
              @None direction))
    by (vm_compute; reflexivity).
  reflexivity.
Qed.

Lemma red_dress_in_ask_item_witness :
  step (jeans_context ask_item) = ask_item /\
  ctx_after (generate_reply stable_sorter fallback_df (jeans_context ask_item)
               (lit "red dress"))
  = mkContext (Some (lit "red dress")) (Some (lit "red")) (Some 80%Z)
      (Some less) ask_color.
Proof.
  split; [reflexivity|].
  destruct (red_dress_in_ask_item stable_sorter (jeans_context ask_item)
              eq_refl) as [_ H].
  rewrite H. reflexivity.
Defined.

(** C9 fails in two ways.  When both segments resolve to products
    with the same name and color, the second column of [comp_data]
    overwrites the first and the table has a single product column.
    When the catalog has no color column, the column labels read
    [p1[color_col]] with [color_col = None] and the handler raises
    [KeyError]. *)
Theorem compare_products_slips :
  (exists h,
     compare_products fallback_df (lit "blue jeans vs blue jeans") = Compared h
     /\ product_columns h = 1) /\
  compare_products colorless_df (lit "blue jeans vs red dress")
  = Crashed KeyError.
Proof.
  split; [|vm_compute; reflexivity].
  eexists. split; vm_compute; reflexivity.
Qed.

Local Close Scope string_scope.

(** ** The step [ask_item] *)

Section AskItem.



End AskItem.




(** ** The comparison handler, case by case *)

Section Compare.

Variable df : Catalog.

Lemma find_product_item_col x p : find_product df x = Some p -> item_col df = true.
Proof.
  unfold find_product. destruct (item_col df); [reflexivity|].
  cbn [truthy]. discriminate.
Qed.

Lemma append_assoc (a b c : string) : ((a ++ b) ++ c = a ++ b ++ c)%string.
Proof. induction a as [|x a IH]; cbn; [reflexivity | now rewrite IH]. Qed.

Lemma attribute_has_no_paren (s : string) : (s ++ ")")%string <> "Attribute"%string.
Proof.
  intros H.
  do 9 (destruct s as [|? s]; cbn in H; [discriminate H | injection H as _ H]).
  destruct s; discriminate H.
Qed.

Lemma label_not_attribute (name col : string) :
  String.eqb (name ++ " (" ++ col ++ ")")%string "Attribute"%string = false.
Proof.
  apply String.eqb_neq. rewrite <- !append_assoc.
  apply attribute_has_no_paren.
Qed.

(** X16: what the handler does with a non-empty input: the format
    hint for fewer than two segments; the spelling warning unless both
    of the first two segments resolve to a product; otherwise, on a
    catalog with a color column, a comparison, whose table has two
    product columns when the two labels differ. *)
Lemma compare_products_cases (u : text) :
  u <> [] ->
  match split vs_or_and (lower u) with
  | s1 :: s2 :: _ =>
      match find_product df (strip s1), find_product df (strip s2) with
      | Some p1, Some p2 =>
          color_col df = true ->
          exists h,
            compare_products df u = Compared h /\
            (label p1 <> label p2 -> product_columns h = 2)
      | _, _ => compare_products df u = Warning check_spelling
      end
  | _ => compare_products df u = Info use_format
  end.
Proof.
  intros Hu. unfold compare_products.
  destruct u as [|c u]; [congruence|].
  destruct (split vs_or_and (lower (c :: u))) as [|s1 [|s2 segs]];
    [reflexivity | reflexivity |].
  destruct (find_product df (strip s1)) as [p1|] eqn:E1; [|reflexivity].
  destruct (find_product df (strip s2)) as [p2|] eqn:E2; [|reflexivity].
  intros Hc. apply find_product_item_col in E1.
  unfold product_column, get_cell. rewrite E1, Hc. cbn [bind fst snd].
  eexists. split; [reflexivity|].
  intros Hne. unfold product_columns. cbn [cmp_table dict_set].
  rewrite label_not_attribute. cbn [dict_set].
  rewrite label_not_attribute.
  fold (label p1). fold (label p2).
  destruct (String.eqb (label p2) (label p1)) eqn:E; [|reflexivity].
  apply String.eqb_eq in E. congruence.
Qed.

End Compare.

(** ** A witness for the budget extraction *)




(** ** The stop phrases *)

Section StopPhrases.

Lemma last_char_cons c pre prev :
  last_char (c :: pre) prev = last_char pre (Some c).
Proof.
  unfold last_char. cbn [rev].
  destruct (rev pre) as [|d l] eqn:E; reflexivity.
Qed.

Variable A : Type.

(** A repetition followed by [k] succeeds exactly when [k] succeeds
    after some run of characters of the class. *)
Lemma star_succeeds p (k : option ascii -> text -> option A) prev s :
  star p prev s k <> None <->
  exists pre post,
    s = pre ++ post /\ forallb p pre = true /\
    k (last_char pre prev) post <> None.
Proof.
  split.
  - revert prev. induction s as [|c s IH]; intros prev H.
    + exists [], []. auto.
    + cbn [star] in H. destruct (p c) eqn:E.
      * destruct (star p (Some c) s k) as [a|] eqn:Es.
        -- destruct (IH (Some c)) as (pre & post & -> & Hp & Hk);
             [congruence|].
           exists (c :: pre), post. cbn [forallb]. rewrite E, Hp.
           rewrite last_char_cons. auto.
        -- exists [], (c :: s). auto.
      * exists [], (c :: s). auto.
  - intros (pre & post & -> & Hp & Hk). revert prev Hk.
    induction pre as [|c pre IH]; intros prev Hk.
    + cbn [app]. destruct post as [|c post]; [exact Hk|].
      cbn [star]. destruct (p c); [|exact Hk].
      destruct (star p (Some c) post k); [discriminate | exact Hk].
    + cbn [forallb] in Hp. apply andb_prop in Hp as [Hc Hp].
      cbn [app star]. rewrite Hc. rewrite last_char_cons in Hk.
      specialize (IH Hp (Some c) Hk).
      destruct (star p (Some c) (pre ++ post) k); [discriminate | congruence].
Qed.

End StopPhrases.

Section StopPattern.

Lemma star_to_the_end (A : Type) (a : A) p prev s :
  star p prev s (fun _ s' => match s' with [] => Some a | _ :: _ => None end)
  <> None <-> forallb p s = true.
Proof.
  rewrite star_succeeds. split.
  - intros (pre & post & -> & Hp & Hk).
    destruct post; [|congruence]. now rewrite app_nil_r.
  - intros H. exists s, []. rewrite app_nil_r. repeat split; [assumption|discriminate].
Qed.

(** [.*\bW\b.*] covers [t] exactly when [W] stands in [t] as a word
    and [t] has no line break outside of [W]. *)
Lemma stop_pattern_spec w t :
  fullmatch (stop_pattern w) t <> None <->
  exists pre post,
    word_at w t pre post /\
    forallb is_dot pre = true /\ forallb is_dot post = true.
Proof.
  unfold fullmatch, stop_pattern. cbn [run].
  rewrite star_succeeds. split.
  - intros (pre & rest & -> & Hp & Hk).
    destruct (at_boundary (last_char pre None) rest) eqn:Hb1; [|congruence].
    destruct (strip_prefix w rest) as [post|] eqn:Hw; [|congruence].
    destruct (at_boundary (last_char w (last_char pre None)) post) eqn:Hb2;
      [|congruence].
    apply strip_prefix_inv in Hw. subst rest.
    exists pre, post. unfold word_at. repeat split; try assumption.
    revert Hk. generalize (MatchObj 0 (List.length (pre ++ w ++ post)) None).
    intros m Hk. eapply star_to_the_end. exact Hk.
  - intros (pre & post & (-> & Hb1 & Hb2) & Hp & Hq).
    exists pre, (w ++ post). repeat split; try assumption.
    rewrite Hb1, strip_prefix_app_same, Hb2.
    generalize (MatchObj 0 (List.length (pre ++ w ++ post)) None). intros m.
    now apply star_to_the_end.
Qed.

Lemma stop_words_single_line w : In w stop_words -> forallb is_dot w = true.
Proof.
  intros H. repeat (destruct H as [<-|H]; [reflexivity|]). destruct H.
Qed.

(** The stop test: the text is a single line in which a stop phrase
    stands as a word. *)
Lemma is_stop_spec t :
  is_stop t = true <->
  single_line t /\
  exists w pre post, In w stop_words /\ word_at w t pre post.
Proof.
  unfold is_stop. rewrite existsb_exists. split.
  - intros (w & Hin & H).
    assert (Hm : fullmatch (stop_pattern w) t <> None)
      by (destruct (fullmatch (stop_pattern w) t); [discriminate|discriminate H]).
    apply stop_pattern_spec in Hm as (pre & post & Hw & Hp & Hq).
    split; [|now exists w, pre, post].
    destruct Hw as (-> & _). unfold single_line.
    rewrite !forallb_app, Hp, Hq, (stop_words_single_line w Hin). reflexivity.
  - intros (Hl & w & pre & post & Hin & Hw).
    exists w. split; [exact Hin|].
    assert (Hm : fullmatch (stop_pattern w) t <> None).
    { apply stop_pattern_spec. exists pre, post. split; [exact Hw|].
      destruct Hw as (-> & _). unfold single_line in Hl.
      rewrite !forallb_app in Hl.
      apply andb_prop in Hl as [Hp Hl]. apply andb_prop in Hl as [_ Hq].
      now split. }
    destruct (fullmatch (stop_pattern w) t); [reflexivity|congruence].
Qed.

(** X15: on a single line, a stop phrase standing as a word ends the
    turn from any step: the slots are emptied, the step is [greet],
    the reply is the farewell and no search is run. *)
Lemma stop_phrase_resets (S : Sorter) df ctx u w pre post :
  single_line (strip (lower u)) ->
  In w stop_words ->
  word_at w (strip (lower u)) pre post ->
  generate_reply S df ctx u
  = mkTurn (Ok farewell) (mkContext None None None None greet) [].
Proof.
  intros Hl Hin Hw. apply stop_turn. apply is_stop_spec.
  split; [exact Hl|]. now exists w, pre, post.
Qed.

End StopPattern.

(* ================================================================== *)
(** * Further properties *)
(* ================================================================== *)

(** ** Further properties of [search_products] *)

Section SearchAnyFilter.

Variable S : Sorter.
Variable df : Catalog.
Variables (i c : option text) (b : option Z) (pt : option direction).

Lemma filter_filter (A : Type) (f g : A -> bool) l :
  filter f (filter g l) = filter (fun x => g x && f x) l.
Proof.
  induction l as [|x l IH]; [reflexivity|].
  cbn. destruct (g x); cbn; [destruct (f x)|]; now rewrite IH.
Qed.

Lemma filter_true (A : Type) (l : list A) : filter (fun _ => true) l = l.
Proof. induction l as [|x l IH]; [reflexivity|]. cbn. now rewrite IH. Qed.

Lemma text_filter_as_filter col cell s l :
  text_filter col cell s l = filter (text_ok col cell s) l.
Proof.
  unfold text_filter, text_ok.
  destruct s as [[|ch s]|]; try (symmetry; apply filter_true).
  destruct col; [reflexivity | symmetry; apply filter_true].
Qed.

Lemma drop_unpriced_as_filter l :
  drop_unpriced df l
  = filter (fun r => if price_col df then has_price r else true) l.
Proof.
  unfold drop_unpriced. destruct (price_col df);
    [reflexivity | symmetry; apply filter_true].
Qed.

Lemma budget_filter_as_filter l l' :
  budget_filter df b pt l = Ok l' -> l' = filter (budget_ok df b pt) l.
Proof.
  unfold budget_filter, budget_ok, float.
  destruct b as [n|]; [|intros [= <-]; symmetry; apply filter_true].
  destruct (price_col df); [|intros [= <-]; symmetry; apply filter_true].
  destruct pt as [[]|]; [| |intros [= <-]; symmetry; apply filter_true];
    destruct (Float.float_of_int n); cbn [bind]; try discriminate;
    now intros [= <-].
Qed.


(** The frame that reaches the end of a search that does not raise:
    the rows of the catalog that satisfy all that is asked. *)
Lemma search_products_frame :
  search_products S df i c b pt
  = match budget_filter df b pt
            (text_filter (color_col df) r_color c
               (text_filter (item_col df) r_item i (rows df))) with
    | Ok _ => Ok (sorted_head S df (filter (matching df i c b pt) (rows df)))
    | Raised e => Raised e
    end.
Proof.
  unfold search_products.
  destruct (budget_filter df b pt _) as [l|e] eqn:E; [|reflexivity].
  cbn [bind]. apply budget_filter_as_filter in E. subst l.
  rewrite drop_unpriced_as_filter, !text_filter_as_filter, !filter_filter.
  do 2 f_equal. apply filter_ext. intros x. unfold matching.
  now rewrite !andb_assoc.
Qed.

End SearchAnyFilter.

(** X1: whatever the filters, a search that returns rows returns
    [min 3 n] of the [n] catalog rows that satisfy all of them (the
    budget being compared as [float(budget)] with the price as a
    [float64]); on a
    catalog with a price column these are in ascending order of price
    and none of the matching rows left out is cheaper than a returned
    one; without a price column they are the first three in catalog
    order. *)
Theorem search_products_cheapest_matching (S : Sorter) (df : Catalog)
    (i c : option text) (b : option Z) (pt : option direction)
    (r : list Row) :
  search_products S df i c b pt = Ok (Some r) ->
  let m := filter (matching df i c b pt) (rows df) in
  List.length r = min 3 (List.length m) /\ r <> [] /\
  (forall x, In x r -> In x (rows df) /\ matching df i c b pt x = true) /\
  (price_col df = true ->
   StronglySorted price_le r /\
   exists rest,
     Permutation (r ++ rest) m /\
     forall x y, In x r -> In y rest -> price_le x y) /\
  (price_col df = false -> r = firstn 3 m).
Proof.
  intros H m. rewrite search_products_frame in H. fold m in H.
  destruct (budget_filter df b pt _) as [l|e]; [|discriminate].
  unfold sorted_head in H. destruct m as [|x0 m'] eqn:Em; [discriminate|].
  rewrite <- Em in *.
  assert (Hr : r = firstn 3 (if price_col df then sort_values S m else m))
    by congruence.
  clear H.
  pose proof (sort_values_perm S m) as HP.
  pose proof (sort_values_sorted S m) as HS.
  assert (Hlen : List.length r = min 3 (List.length m)).
  { rewrite Hr, length_firstn. destruct (price_col df); [|reflexivity].
    now rewrite (Permutation_length HP). }
  split; [exact Hlen|]. split.
  { intros ->. rewrite Em in Hlen. cbn in Hlen. discriminate. }
  split.
  { intros x Hx. rewrite Hr in Hx. apply firstn_incl in Hx.
    assert (Hm : In x m).
    { destruct (price_col df); [|exact Hx].
      eapply Permutation_in; [apply Permutation_sym, HP | exact Hx]. }
    subst m. now apply filter_In in Hm. }
  split.
  - intros Hp. rewrite Hp in Hr.
    rewrite <- (firstn_skipn 3 (sort_values S m)) in HS.
    apply sorted_app_le in HS as [HS1 HS2]. rewrite <- Hr in HS1, HS2.
    split; [exact HS1|].
    exists (skipn 3 (sort_values S m)). split; [|exact HS2].
    rewrite Hr, firstn_skipn. now apply Permutation_sym.
  - intros Hp. now rewrite Hp in Hr.
Qed.

Lemma search_products_cheapest_matching_witness :
  exists r,
    search_products stable_sorter fallback_df (Some (lit "s")) None
      (Some 60%Z) (Some less) = Ok (Some r) /\
    List.length r = 3 /\
    forall x, In x r ->
      matching fallback_df (Some (lit "s")) None (Some 60%Z) (Some less) x
      = true.
Proof.
  eexists. split; [vm_compute; reflexivity|].
  match goal with
  | |- List.length ?r = 3 /\ _ =>
      assert (E : search_products stable_sorter fallback_df (Some (lit "s"))
                    None (Some 60%Z) (Some less) = Ok (Some r))
        by (vm_compute; reflexivity)
  end.
  destruct (search_products_cheapest_matching _ _ _ _ _ _ _ E)
    as (Hl & _ & Hm & _).
  split; [rewrite Hl; vm_compute; reflexivity|].
  intros x Hx. now apply Hm.
Defined.


(** ** The range of [float(budget)] *)

(** X3: [float(budget)] raises [OverflowError] exactly for the budgets
    of absolute value [2^1024 - 2^970] and more (the numbers that
    round to [2^1024]); in particular no budget written with 308
    digits or fewer makes a search raise. *)
Theorem float_overflow_threshold (n : Z) :
  (Float.float_of_int n = None <-> (2 ^ 1024 - 2 ^ 970 <= Z.abs n)%Z) /\
  ((Z.abs n < 10 ^ 308)%Z -> float n <> Raised OverflowError).
Proof.
  pose proof (float_of_int_none n) as H.
  split; [exact H|].
  intros Hn. unfold float.
  destruct (Float.float_of_int n); [discriminate|].
  pose proof (proj1 H eq_refl) as E.
  assert (C : (10 ^ 308 < 2 ^ 1024 - 2 ^ 970)%Z) by (vm_compute; reflexivity).
  lia.
Qed.

Lemma float_overflow_threshold_witness :
  (Z.abs 80 < 10 ^ 308)%Z /\ float 80 = Ok 80%Z.
Proof.
  assert (H : (Z.abs 80 < 10 ^ 308)%Z) by (vm_compute; reflexivity).
  split; [exact H|].
  pose proof (proj2 (float_overflow_threshold 80) H) as Hf.
  unfold float in *. destruct (Float.float_of_int 80) eqn:E; [|congruence].
  vm_compute in E. congruence.
Defined.

(** ** The candidates [get_close_matches] chooses from *)

Section CloseMatches.

Import Difflib.

Lemma ratio_den_pos a b : 0 < snd (ratio a b).
Proof.
  unfold ratio. destruct (List.length a + List.length b =? 0) eqn:E; cbn.
  - lia.
  - apply Nat.eqb_neq in E. lia.
Qed.

Lemma score_le_trans x y z :
  0 < snd y -> score_le x y -> score_le y z -> score_le x z.
Proof.
  unfold score_le. destruct x as [a b], y as [c d], z as [e f]. cbn.
  intros Hd H1 H2.
  assert (H : a * f * d <= e * b * d) by nia. nia.
Qed.

Lemma best_of_invariant word cands seen best :
  best_so_far word seen best ->
  best_so_far word (seen ++ cands) (best_of word cands best).
Proof.
  revert seen best. induction cands as [|x cands IH]; intros seen best H.
  - now rewrite app_nil_r.
  - cbn [best_of].
    replace (seen ++ x :: cands) with ((seen ++ [x]) ++ cands)
      by (now rewrite <- app_assoc).
    apply IH.
    destruct (close_enough (ratio x word)) eqn:Ex.
    + destruct best as [[s0 x0]|].
      * destruct H as (Hs & Hin & Hc & Hmax).
        destruct (score_ltb s0 (ratio x word)
                  || score_eqb s0 (ratio x word) && text_ltb x0 x) eqn:Eb.
        -- assert (Hle : score_le s0 (ratio x word)).
           { unfold score_le. apply orb_prop in Eb as [Eb|Eb].
             - apply Nat.ltb_lt in Eb. lia.
             - apply andb_prop in Eb as [Eb _]. apply Nat.eqb_eq in Eb. lia. }
           repeat split; try assumption; [apply in_or_app; right; now left|].
           intros y Hy Hcy. apply in_app_or in Hy as [Hy|[<-|[]]].
           ++ eapply score_le_trans; [|apply (Hmax y Hy Hcy)|exact Hle].
              rewrite Hs. apply ratio_den_pos.
           ++ unfold score_le. lia.
        -- repeat split; try assumption; [apply in_or_app; now left|].
           intros y Hy Hcy. apply in_app_or in Hy as [Hy|[<-|[]]].
           ++ now apply Hmax.
           ++ apply orb_false_elim in Eb as [Eb _].
              apply Nat.ltb_ge in Eb. exact Eb.
      * repeat split; try assumption; [apply in_or_app; right; now left|].
        intros y Hy Hcy. apply in_app_or in Hy as [Hy|[<-|[]]].
        -- rewrite (H y Hy) in Hcy. discriminate.
        -- unfold score_le. lia.
    + destruct best as [[s0 x0]|].
      * destruct H as (Hs & Hin & Hc & Hmax).
        repeat split; try assumption; [apply in_or_app; now left|].
        intros y Hy Hcy. apply in_app_or in Hy as [Hy|[<-|[]]].
        -- now apply Hmax.
        -- congruence.
      * intros y Hy. apply in_app_or in Hy as [Hy|[<-|[]]];
          [now apply H | exact Ex].
Qed.

End CloseMatches.

(** [get_close_matches(word, possibilities, n=1)] returns nothing
    exactly when no candidate reaches the cutoff 0.6; otherwise it
    returns one of the candidates, whose similarity to the word
    reaches the cutoff and is not exceeded by that of any other
    candidate. *)
Lemma get_close_matches_best (word : text) (possibilities : list text) :
  match Difflib.get_close_matches word possibilities with
  | Some x =>
      In x possibilities /\
      Difflib.close_enough (Difflib.ratio x word) = true /\
      forall y, In y possibilities ->
        Difflib.score_ltb (Difflib.ratio x word) (Difflib.ratio y word)
        = false
  | None =>
      forall y, In y possibilities ->
        Difflib.close_enough (Difflib.ratio y word) = false
  end.
Proof.
  unfold Difflib.get_close_matches.
  pose proof (best_of_invariant word possibilities [] None) as H.
  cbn [app] in H.
  assert (H0 : best_so_far word [] None) by (intros y []).
  specialize (H H0).
  destruct (Difflib.best_of word possibilities None) as [[s x]|].
  - destruct H as (-> & Hin & Hc & Hmax).
    repeat split; try assumption.
    intros y Hy. apply Nat.ltb_ge.
    destruct (Difflib.close_enough (Difflib.ratio y word)) eqn:Ey.
    + apply (Hmax y Hy Ey).
    + (* below the cutoff, so below the one returned *)
      unfold Difflib.close_enough in *.
      apply Nat.leb_le in Hc. apply Nat.leb_gt in Ey.
      pose proof (ratio_den_pos x word). pose proof (ratio_den_pos y word).
      nia.
  - exact H.
Qed.

(** ** What [extract_filters] can return *)

Section Extracted.

Variable df : Catalog.
Variable t : text.

Lemma get_close_matches_in word poss x :
  Difflib.get_close_matches word poss = Some x -> In x poss.
Proof.
  unfold Difflib.get_close_matches.
  pose proof (best_of_invariant word poss [] None) as H. cbn [app] in H.
  assert (H0 : best_so_far word [] None) by (intros y []).
  specialize (H H0).
  destruct (Difflib.best_of word poss None) as [[s y]|]; [|discriminate].
  intros [= <-]. apply H.
Qed.

Lemma first_such_some (A : Type) (p : A -> bool) l x :
  first_such p l = Some x -> In x l /\ p x = true.
Proof. apply find_some. Qed.

Lemma first_such_first (A : Type) (p : A -> bool) l x :
  first_such p l = Some x ->
  exists before after,
    l = before ++ x :: after /\ forall y, In y before -> p y = false.
Proof.
  unfold first_such. induction l as [|a l IH]; [discriminate|].
  cbn [find]. destruct (p a) eqn:E.
  - intros [= <-]. exists [], l. split; [reflexivity | intros y []].
  - intros H. destruct (IH H) as (before & after & -> & Hb).
    exists (a :: before), after. split; [reflexivity|].
    intros y [<-|Hy]; [exact E | now apply Hb].
Qed.

(** The item: the lowercased name of a catalog item. *)
Lemma found_item_in i :
  found_item df t = Some i ->
  item_col df = true /\ In i (map lower (unique_values r_item df)).
Proof.
  unfold found_item.
  set (lower_items := if item_col df
                      then map lower (unique_values r_item df) else []).
  assert (Hin : (if negb (truthy (first_such (fun i0 => contains i0 t)
                                    lower_items))
                    && negb (List.length lower_items =? 0)
                 then Difflib.get_close_matches t lower_items
                 else first_such (fun i0 => contains i0 t) lower_items)
                = Some i -> In i lower_items).
  { destruct (negb (truthy (first_such (fun i0 => contains i0 t)
                              lower_items))
              && negb (List.length lower_items =? 0));
      [ apply get_close_matches_in
      | intros H; now apply first_such_some in H ]. }
  intros H. specialize (Hin H).
  subst lower_items. destruct (item_col df); [now split | destruct Hin].
Qed.

Lemma not_gray c :
  In c colors -> text_eqb c (lit "gray") = false -> c <> lit "gray".
Proof.
  intros Hin E ->. vm_compute in E. discriminate.
Qed.

(** The color: a color of the vocabulary, never "gray"; nothing
    exactly when no color of the vocabulary occurs in the text. *)
Lemma found_color_cases :
  match found_color t with
  | Some c =>
      In c colors /\ c <> lit "gray" /\
      exists c0, In c0 colors /\ contains c0 t = true
  | None => forall c0, In c0 colors -> contains c0 t = false
  end.
Proof.
  unfold found_color.
  destruct (first_such (fun c => contains c t) colors) as [c|] eqn:E.
  - apply first_such_some in E as [Hin Hc].
    destruct (text_eqb c (lit "gray")) eqn:Eg.
    + split; [vm_compute; tauto|]. split; [discriminate | now exists c].
    + split; [exact Hin|]. split; [now apply not_gray | now exists c].
  - intros c0 Hc0. unfold first_such in E.
    apply (find_none _ _ E c0 Hc0).
Qed.

End Extracted.

(** X5: what [extract_filters] returns is always of this shape: as
    item nothing or the lowercased name of a catalog item; as color
    nothing or a color of the vocabulary other than "gray", and
    nothing exactly when no color word occurs in the lowercased text;
    as budget nothing or a number that is not negative, with a
    direction exactly when there is a budget.  When it does not
    return, it raises [ValueError]. *)
Theorem extract_filters_shape (df : Catalog) (t : text) :
  match extract_filters df t with
  | Ok (found_item, found_color, budget, price_type) =>
      match found_item with
      | Some i =>
          item_col df = true /\ In i (map lower (unique_values r_item df))
      | None => True
      end /\
      match found_color with
      | Some c =>
          In c colors /\ c <> lit "gray" /\
          exists c0, In c0 colors /\ contains c0 (lower t) = true
      | None => forall c0, In c0 colors -> contains c0 (lower t) = false
      end /\
      match budget, price_type with
      | Some b, Some _ => (0 <= b)%Z
      | None, None => True
      | _, _ => False
      end
  | Raised e => e = ValueError
  end.
Proof.
  rewrite extract_filters_frame.
  pose proof (found_item_in df (lower t)) as Hi.
  pose proof (found_color_cases (lower t)) as Hc.
  pose proof (budget_and_direction_shape (lower t)) as Hb.
  destruct (budget_and_direction (lower t)) as [[b pt]|e];
    cbn [bind fst snd]; [|apply Hb].
  split; [destruct (found_item df (lower t)) as [i|];
          [now apply Hi | exact I]|].
  split; [exact Hc|].
  destruct b as [b|], pt as [pt|]; try exact Hb; [apply Hb | exact I].
Qed.

(** X4: how [extract_filters] chooses the item.  A catalog item whose
    lowercased name occurs in the lowercased text wins, the first in
    catalog order, unless that name is the empty string.  Otherwise
    the item is the fuzzy match: nothing when no lowercased name
    reaches the similarity cutoff 0.6 (in particular on a catalog
    without items), else a lowercased name that reaches it and that no
    other name exceeds in similarity.  This is so whenever
    [extract_filters] returns; when it does not, it raises
    [ValueError]. *)
Theorem extract_filters_item_choice (df : Catalog) (t : text) :
  let lower_items :=
    if item_col df then map lower (unique_values r_item df) else [] in
  match extract_filters df t with
  | Ok (found_item, _, _, _) =>
      match first_such (fun i => contains i (lower t)) lower_items with
      | Some (c :: i) => found_item = Some (c :: i)
      | _ =>
          match found_item with
          | Some x =>
              In x lower_items /\
              Difflib.close_enough (Difflib.ratio x (lower t)) = true /\
              forall y, In y lower_items ->
                Difflib.score_ltb (Difflib.ratio x (lower t))
                  (Difflib.ratio y (lower t)) = false
          | None =>
              forall y, In y lower_items ->
                Difflib.close_enough (Difflib.ratio y (lower t)) = false
          end
      end
  | Raised e => e = ValueError
  end.
Proof.
  cbv zeta. rewrite extract_filters_frame.
  pose proof (budget_and_direction_shape (lower t)) as Hb.
  destruct (budget_and_direction (lower t)) as [[b pt]|e];
    cbn [bind fst snd]; [|apply Hb].
  clear Hb. unfold found_item.
  set (lower_items := if item_col df
                      then map lower (unique_values r_item df) else []).
  pose proof (get_close_matches_best (lower t) lower_items) as Hg.
  destruct (first_such (fun i => contains i (lower t)) lower_items)
    as [[|c i]|] eqn:E; cbn [truthy negb andb].
  - (* the empty name occurs in every text and counts as no match *)
    apply first_such_some in E as [Hin _].
    destruct lower_items as [|i0 l0]; [destruct Hin|].
    cbn [List.length Nat.eqb negb]. exact Hg.
  - reflexivity.
  - destruct lower_items as [|i0 l0].
    + cbn [List.length Nat.eqb negb]. intros y [].
    + cbn [List.length Nat.eqb negb]. exact Hg.
Qed.

(** ** Sessions *)

Section Sessions.

Variable S : Sorter.
Variable df : Catalog.

(** What [extract_filters] returns, part by part. *)
Lemma extract_filters_returns t i c b pt :
  extract_filters df t = Ok (i, c, b, pt) ->
  i = found_item df (lower t) /\ c = found_color (lower t) /\
  budget_and_direction (lower t) = Ok (b, pt).
Proof.
  rewrite extract_filters_frame.
  destruct (budget_and_direction (lower t)) as [[b' pt']|e];
    cbn [bind fst snd]; [|discriminate].
  intros [= <- <- <- <-]. auto.
Qed.

(** The slots [extract_filters] fills are well formed. *)
Lemma extract_filters_well_formed t i c b pt :
  extract_filters df t = Ok (i, c, b, pt) ->
  match i with
  | Some i => item_col df = true /\ In i (map lower (unique_values r_item df))
  | None => True
  end /\
  match c with
  | Some c => In c colors /\ c <> lit "gray"
  | None => True
  end /\
  truthy c = match c with Some _ => true | None => false end /\
  match b, pt with
  | Some b, Some _ => (0 <= b)%Z
  | None, None => True
  | _, _ => False
  end.
Proof.
  intros H. apply extract_filters_returns in H as (-> & -> & Hb).
  pose proof (found_item_in df (lower t)) as Hi.
  pose proof (found_color_cases (lower t)) as Hc.
  pose proof (budget_and_direction_shape (lower t)) as Hs.
  rewrite Hb in Hs.
  split; [destruct (found_item df (lower t)); [now apply Hi | exact I]|].
  split; [destruct (found_color (lower t));
          [destruct Hc as (? & ? & _); now split | exact I]|].
  split.
  - destruct (found_color (lower t)) as [c|]; [|reflexivity].
    destruct Hc as (Hin & _).
    repeat (destruct Hin as [<-|Hin]; [reflexivity|]). destruct Hin.
  - destruct b as [b|], pt as [pt|]; try exact Hs; [apply Hs | exact I].
Qed.

(** The branch of [generate_reply] a turn takes, for the steps the
    program writes. *)
Lemma generate_reply_cases ctx u :
  known_step (step ctx) ->
  let t := strip (lower u) in
  generate_reply S df ctx u =
  if is_stop t then
    mkTurn (Ok farewell) (mkContext None None None None greet) []
  else if has_budget_phrase t then
    match extract_filters df t with
    | Raised e => mkTurn (Raised e) ctx []
    | Ok (_, _, b, pt) =>
        mkTurn (search_and_render S df (item ctx) (color ctx) b pt
                  (no_match_in_range (item ctx)))
          (mkContext (item ctx) (color ctx) b pt (step ctx))
          [mkCall (item ctx) (color ctx) b pt]
    end
  else
    match step ctx with
    | greet =>
        mkTurn (Ok ask_for_item)
          (mkContext (item ctx) (color ctx) (budget ctx) (price_type ctx)
             ask_item) []
    | ask_item =>
        match extract_filters df t with
        | Raised e => mkTurn (Raised e) ctx []
        | Ok (found_item, found_color, _, _) =>
            mkTurn (Ok (ask_for_color found_item))
              (mkContext found_item found_color (budget ctx)
                 (price_type ctx) ask_color) []
        end
    | ask_color =>
        match extract_filters df t with
        | Raised e => mkTurn (Raised e) ctx []
        | Ok (_, found_color, _, _) =>
            mkTurn (Ok ask_for_budget)
              (mkContext (item ctx)
                 (if truthy found_color then found_color else color ctx)
                 (budget ctx) (price_type ctx) ask_budget) []
        end
    | _ =>
        match extract_filters df t with
        | Raised e => mkTurn (Raised e) ctx []
        | Ok (_, _, b, pt) =>
            mkTurn (search_and_render S df (item ctx) (color ctx) b pt
                      nothing_in_range)
              (mkContext (item ctx) (color ctx) b pt ask_budget)
              [mkCall (item ctx) (color ctx) b pt]
        end
    end.
Proof.
  intros Hk. cbv zeta. unfold generate_reply.
  destruct (is_stop (strip (lower u))); [reflexivity|].
  destruct (has_budget_phrase (strip (lower u))).
  { now destruct (extract_filters df (strip (lower u)))
      as [[[[i c] b] pt]|e]. }
  destruct (step ctx); try reflexivity; try destruct Hk;
    now destruct (extract_filters df (strip (lower u)))
      as [[[[i c] b] pt]|e].
Qed.

(** One turn keeps the slots well formed. *)
Lemma turn_well_formed ctx u :
  well_formed df ctx ->
  well_formed df (ctx_after (generate_reply S df ctx u)).
Proof.
  intros Hw. pose proof Hw as (Hk & Hi & Hc & Hb).
  rewrite (generate_reply_cases ctx u Hk). cbv zeta.
  pose proof (extract_filters_well_formed (strip (lower u))) as Hx.
  destruct (is_stop (strip (lower u))).
  { unfold well_formed. cbn. tauto. }
  (* what a call of [extract_filters] brings to each branch *)
  destruct (extract_filters df (strip (lower u)))
    as [[[[fi fc] b] pt]|e].
  2:{ destruct (has_budget_phrase (strip (lower u))); [exact Hw|].
      destruct (step ctx); try destruct Hk; try exact Hw.
      unfold well_formed. cbn. tauto. }
  destruct (Hx fi fc b pt eq_refl) as (Hxi & Hxc & Hxt & Hxb).
  destruct (has_budget_phrase (strip (lower u))).
  { unfold well_formed. cbn [ctx_after step item color budget price_type].
    tauto. }
  destruct (step ctx); try destruct Hk;
    unfold well_formed;
    cbn [ctx_after step item color budget price_type known_step];
    repeat split; try assumption; try exact I.
  destruct (truthy fc); assumption.
Qed.

End Sessions.

(** X6: in every session, whatever is said and in whatever order, the
    slots stay well formed: the step is one of [greet], [ask_item],
    [ask_color], [ask_budget] (so the fallback at the end of
    [generate_reply] is never reached); the item slot is empty or
    holds the lowercased name of a catalog item; the color slot is
    empty or holds a color of the vocabulary other than "gray"; the
    budget slot is empty or not negative, and there is a direction
    exactly when there is a budget. *)
Theorem session_slots_well_formed (S : Sorter) (df : Catalog)
    (us : list text) :
  well_formed df (converse S df initial_context us).
Proof.
  assert (H : forall ctx, well_formed df ctx ->
                          well_formed df (converse S df ctx us)).
  { induction us as [|u us' IH]; intros ctx Hc; [exact Hc|].
    cbn [converse]. apply IH. now apply turn_well_formed. }
  apply H. unfold well_formed, initial_context. cbn. tauto.
Qed.



(** ** The guided flow *)

(** X8: the guided flow, from a new session.  Four utterances, none a
    stop phrase and the first three without a budget phrase for the
    guard pattern, on the last three of which [extract_filters]
    returns, are answered by the question for the item, the question
    for the color (naming the item found in the second utterance),
    the question for the budget, and then one search: for the item of
    the second utterance, the color of the third if it names one and
    else that of the second, and the budget and direction of the
    fourth.  The three questions run no search, and the session ends
    in [ask_budget] holding what was searched for. *)
Theorem guided_flow (S : Sorter) (df : Catalog) (u1 u2 u3 u4 : text)
    (i2 i3 i4 c2 c3 c4 : option text) (b2 b3 b4 : option Z)
    (p2 p3 p4 : option direction) :
  let t1 := strip (lower u1) in
  let t2 := strip (lower u2) in
  let t3 := strip (lower u3) in
  let t4 := strip (lower u4) in
  is_stop t1 = false -> has_budget_phrase t1 = false ->
  is_stop t2 = false -> has_budget_phrase t2 = false ->
  is_stop t3 = false -> has_budget_phrase t3 = false ->
  is_stop t4 = false ->
  extract_filters df t2 = Ok (i2, c2, b2, p2) ->
  extract_filters df t3 = Ok (i3, c3, b3, p3) ->
  extract_filters df t4 = Ok (i4, c4, b4, p4) ->
  let turn1 := generate_reply S df initial_context u1 in
  let turn2 := generate_reply S df (ctx_after turn1) u2 in
  let turn3 := generate_reply S df (ctx_after turn2) u3 in
  let turn4 := generate_reply S df (ctx_after turn3) u4 in
  let found_color :=
    match c3 with
    | Some c => Some c
    | None => c2
    end in
  (reply turn1 = Ok ask_for_item /\ searches turn1 = []) /\
  (reply turn2 = Ok (ask_for_color i2) /\ searches turn2 = []) /\
  (reply turn3 = Ok ask_for_budget /\ searches turn3 = []) /\
  searches turn4 = [mkCall i2 found_color b4 p4] /\
  ctx_after turn4 = mkContext i2 found_color b4 p4 ask_budget.
Proof.
  cbv zeta. intros S1 B1 S2 B2 S3 B3 S4 E2 E3 E4.
  rewrite (generate_reply_cases S df initial_context u1 I). cbv zeta.
  rewrite S1, B1. cbn [step initial_context ctx_after reply searches].
  split; [now split|].
  match goal with
  | |- context [generate_reply S df ?c u2] =>
      rewrite (generate_reply_cases S df c u2 I)
  end.
  cbv zeta. rewrite S2, B2, E2.
  cbn [step item color budget price_type ctx_after reply searches].
  split; [now split|].
  match goal with
  | |- context [generate_reply S df ?c u3] =>
      rewrite (generate_reply_cases S df c u3 I)
  end.
  cbv zeta. rewrite S3, B3, E3.
  cbn [step item color budget price_type ctx_after reply searches].
  split; [now split|].
  match goal with
  | |- context [generate_reply S df ?c u4] =>
      rewrite (generate_reply_cases S df c u4 I)
  end.
  cbv zeta. rewrite S4, E4.
  cbn [step item color budget price_type ctx_after reply searches].
  destruct (extract_filters_well_formed df _ _ _ _ _ E3) as (_ & _ & -> & _).
  destruct c3; destruct (has_budget_phrase (strip (lower u4)));
    cbn [ctx_after searches]; now split.
Qed.

Lemma guided_flow_witness :
  searches
    (generate_reply stable_sorter fallback_df
       (converse stable_sorter fallback_df initial_context
          [lit "Hi"; lit "some jeans"; lit "in blue"])
       (lit "under 80"))
  = [mkCall (Some (lit "blue jeans")) (Some (lit "blue")) (Some 80%Z)
       (Some less)].
Proof.
  pose proof (guided_flow stable_sorter fallback_df (lit "Hi")
                (lit "some jeans") (lit "in blue") (lit "under 80")
                (Some (lit "blue jeans")) None None
                None (Some (lit "blue")) None
                None None (Some 80%Z) None None (Some less)) as H.
  cbv zeta in H.
  assert (S1 : is_stop (strip (lower (lit "Hi"))) = false)
    by (vm_compute; reflexivity).
  assert (B1 : has_budget_phrase (strip (lower (lit "Hi"))) = false)
    by (vm_compute; reflexivity).
  assert (S2 : is_stop (strip (lower (lit "some jeans"))) = false)
    by (vm_compute; reflexivity).
  assert (B2 : has_budget_phrase (strip (lower (lit "some jeans"))) = false)
    by (vm_compute; reflexivity).
  assert (S3 : is_stop (strip (lower (lit "in blue"))) = false)
    by (vm_compute; reflexivity).
  assert (B3 : has_budget_phrase (strip (lower (lit "in blue"))) = false)
    by (vm_compute; reflexivity).
  assert (S4 : is_stop (strip (lower (lit "under 80"))) = false)
    by (vm_compute; reflexivity).
  assert (E2 : extract_filters fallback_df (strip (lower (lit "some jeans")))
               = Ok (Some (lit "blue jeans"), None, None, None))
    by (vm_compute; reflexivity).
  assert (E3 : extract_filters fallback_df (strip (lower (lit "in blue")))
               = Ok (None, Some (lit "blue"), None, None))
    by (vm_compute; reflexivity).
  assert (E4 : extract_filters fallback_df (strip (lower (lit "under 80")))
               = Ok (None, None, Some 80%Z, Some less))
    by (vm_compute; reflexivity).
  destruct (H S1 B1 S2 B2 S3 B3 S4 E2 E3 E4) as (_ & _ & _ & E & _).
  cbn [converse]. exact E.
Defined.

(** X9: saying the same thing twice.  A stop phrase, an utterance
    with a budget phrase, and any utterance while the budget is being
    asked leave the session in a state from which the same utterance
    gives the same turn again: the same reply, the same slots, the
    same search. *)
Theorem repeated_turn (S : Sorter) (df : Catalog) (ctx : context)
    (u : text) :
  let t := strip (lower u) in
  is_stop t = true \/ has_budget_phrase t = true \/ step ctx = ask_budget ->
  generate_reply S df (ctx_after (generate_reply S df ctx u)) u
  = generate_reply S df ctx u.
Proof.
  cbv zeta. intros H. unfold generate_reply.
  destruct (is_stop (strip (lower u))) eqn:Es; [reflexivity|].
  destruct (extract_filters df (strip (lower u))) as [[[[i c] b] pt]|e].
  - destruct (has_budget_phrase (strip (lower u))) eqn:Eb.
    + cbn [ctx_after item color step]. reflexivity.
    + destruct H as [H|[H|H]]; [discriminate H | discriminate H |].
      rewrite H. cbn [ctx_after item color step]. reflexivity.
  - destruct (has_budget_phrase (strip (lower u))) eqn:Eb.
    + cbn [ctx_after]. reflexivity.
    + destruct H as [H|[H|H]]; [discriminate H | discriminate H |].
      rewrite H. cbn [ctx_after]. now rewrite H.
Qed.

Lemma repeated_turn_witness :
  generate_reply stable_sorter fallback_df
    (ctx_after (generate_reply stable_sorter fallback_df
                  (jeans_context ask_color) (lit "over 20")))
    (lit "over 20")
  = generate_reply stable_sorter fallback_df (jeans_context ask_color)
      (lit "over 20").
Proof.
  apply (repeated_turn stable_sorter fallback_df (jeans_context ask_color)
           (lit "over 20")).
  right; left. vm_compute. reflexivity.
Defined.

(** ** Letter case and margins *)

Section Margins.

Lemma lower_char_space c : is_space (lower_char c) = is_space c.
Proof. destruct c as [[] [] [] [] [] [] [] []]; reflexivity. Qed.

Lemma lower_spaces ws : forallb is_space (lower ws) = forallb is_space ws.
Proof.
  unfold lower. induction ws as [|c ws IH]; [reflexivity|].
  cbn [map forallb]. now rewrite lower_char_space, IH.
Qed.

Lemma drop_while_nil p (ws : text) :
  forallb p ws = true -> drop_while p ws = [].
Proof.
  intros H. rewrite <- (app_nil_r ws). now rewrite drop_while_app.
Qed.

Lemma drop_while_keeps p (v w : text) :
  drop_while p v <> [] -> drop_while p (v ++ w) = drop_while p v ++ w.
Proof.
  induction v as [|c v IH]; [intros H; now destruct H|].
  cbn. destruct (p c); [exact IH | reflexivity].
Qed.

Lemma forallb_rev (p : ascii -> bool) (l : text) :
  forallb p (rev l) = forallb p l.
Proof.
  induction l as [|c l IH]; [reflexivity|].
  cbn [rev forallb]. rewrite forallb_app, IH. cbn.
  destruct (p c), (forallb p l); reflexivity.
Qed.

(** [strip] is blind to white space around the text. *)
Lemma strip_margins ws1 v ws2 :
  forallb is_space ws1 = true -> forallb is_space ws2 = true ->
  strip (ws1 ++ v ++ ws2) = strip v.
Proof.
  intros H1 H2. unfold strip. rewrite (drop_while_app _ _ _ H1).
  destruct (drop_while is_space v) as [|c d] eqn:E.
  - assert (Hv : forallb is_space v = true).
    { clear -E. induction v as [|x v IH]; [reflexivity|].
      cbn in E |- *. destruct (is_space x); [now apply IH | discriminate]. }
    rewrite (drop_while_nil is_space (v ++ ws2)); [reflexivity|].
    rewrite forallb_app. now rewrite Hv, H2.
  - rewrite drop_while_keeps by (rewrite E; discriminate).
    rewrite E, rev_app_distr.
    rewrite drop_while_app; [reflexivity|]. now rewrite forallb_rev.
Qed.

End Margins.

(** X10: [generate_reply] reads the utterance up to letter case and
    surrounding white space: lowercasing it and putting white space
    before and after it changes nothing of the turn. *)
Theorem generate_reply_case_and_margins (S : Sorter) (df : Catalog)
    (ctx : context) (u ws1 ws2 : text) :
  forallb is_space ws1 = true -> forallb is_space ws2 = true ->
  generate_reply S df ctx (ws1 ++ lower u ++ ws2)
  = generate_reply S df ctx u.
Proof.
  intros H1 H2.
  assert (E : strip (lower (ws1 ++ lower u ++ ws2)) = strip (lower u)).
  { unfold lower at 1. rewrite !map_app. fold (lower ws1) (lower ws2).
    fold (lower (lower u)). rewrite lower_idem.
    apply strip_margins; now rewrite lower_spaces. }
  unfold generate_reply. now rewrite E.
Qed.

Lemma generate_reply_case_and_margins_witness :
  generate_reply stable_sorter fallback_df (jeans_context ask_budget)
    (lit "  under $60 ")
  = generate_reply stable_sorter fallback_df (jeans_context ask_budget)
      (lit "UNDER $60").
Proof.
  apply (generate_reply_case_and_margins stable_sorter fallback_df
           (jeans_context ask_budget) (lit "UNDER $60") (lit "  ")
           (lit " ")); reflexivity.
Defined.

(** ** [find_product] *)

Section FindProduct.

Variable df : Catalog.

Lemma text_eqb_eq a b : text_eqb a b = true <-> a = b.
Proof.
  revert b. induction a as [|x a IH]; intros [|y b]; cbn [text_eqb];
    try (split; [discriminate | congruence]); [tauto|].
  rewrite andb_true_iff, Ascii.eqb_eq, IH.
  split; [intros [-> ->]; reflexivity | intros [= -> ->]; now split].
Qed.

Lemma hd_error_filter (A : Type) (p : A -> bool) l :
  hd_error (filter p l) = first_such p l.
Proof.
  unfold first_such. induction l as [|a l IH]; [reflexivity|].
  cbn [filter find]. destruct (p a); [reflexivity | exact IH].
Qed.

Lemma unique_incl l x : In x (unique l) -> In x l.
Proof.
  induction l as [|a l IH]; [intros []|].
  cbn [unique]. intros [<-|H]; [now left|].
  right. apply IH. now apply filter_In in H as [H _].
Qed.

Lemma dropna_in (A : Type) (l : list (option A)) x :
  In x (dropna l) -> In (Some x) l.
Proof.
  induction l as [|[a|] l IH]; cbn [dropna]; [intros []| |].
  - intros [<-|H]; [now left | right; now apply IH].
  - intros H. right. now apply IH.
Qed.

(** A value of a column is the value of some row. *)
Lemma unique_values_row col x :
  In x (unique_values col df) -> exists r, In r (rows df) /\ col r = Some x.
Proof.
  unfold unique_values. intros H.
  apply unique_incl, dropna_in, in_map_iff in H as (r & E & Hr).
  now exists r.
Qed.

Lemma starts_with_refl (t : text) : starts_with t t = true.
Proof.
  unfold starts_with. rewrite <- (app_nil_r t) at 2.
  now rewrite strip_prefix_app_same.
Qed.

Lemma contains_refl (t : text) : contains t t = true.
Proof. destruct t; cbn [contains]; now rewrite starts_with_refl. Qed.

(** The item [find_product] settles on. *)
Lemma item_match_cases q i :
  (if item_col df then
     let unique_items := unique_values r_item df in
     let exact :=
       first_such (fun i => contains (lower i) (lower q)) unique_items in
     if negb (truthy exact) && negb (List.length unique_items =? 0)
     then
       let hit :=
         Difflib.get_close_matches (lower q) (map lower unique_items) in
       let wanted := match hit with Some h => h | None => [] end in
       first_such (fun i => text_eqb (lower i) wanted) unique_items
     else exact
   else None) = Some i ->
  i <> [] ->
  item_col df = true /\
  In i (unique_values r_item df) /\
  (contains (lower i) (lower q) = true \/
   Difflib.get_close_matches (lower q)
     (map lower (unique_values r_item df)) = Some (lower i)).
Proof.
  destruct (item_col df); [|discriminate]. cbv zeta.
  intros H Hi. split; [reflexivity|].
  destruct (negb (truthy (first_such (fun i => contains (lower i) (lower q))
                            (unique_values r_item df)))
            && negb (List.length (unique_values r_item df) =? 0)).
  - apply first_such_some in H as [Hin He]. split; [exact Hin|]. right.
    apply text_eqb_eq in He.
    destruct (Difflib.get_close_matches (lower q)
                (map lower (unique_values r_item df))) as [h|].
    + now rewrite He.
    + destruct i; [congruence | discriminate He].
  - apply first_such_some in H as [Hin He]. split; [exact Hin|]. now left.
Qed.

End FindProduct.

(** X11: the product [find_product] returns.  There is an item name
    of the catalog, not empty, that occurs in the lowercased text or
    else is the fuzzy match of the text among the lowercased item
    names; and the product is the first row of the catalog whose item
    contains that name and, when the catalog has a color column and a
    color value of the catalog occurs in the text, whose color
    contains the first such value (letter case apart, both times). *)
Theorem find_product_first_match (df : Catalog) (q : text) (r : Row) :
  find_product df q = Some r ->
  exists i,
    item_col df = true /\ i <> [] /\ In i (unique_values r_item df) /\
    (contains (lower i) (lower q) = true \/
     Difflib.get_close_matches (lower q)
       (map lower (unique_values r_item df)) = Some (lower i)) /\
    let c :=
      first_such (fun c => contains (lower c) (lower q))
        (unique_values r_color df) in
    let wanted row :=
      cell_contains i (r_item row) && text_ok (color_col df) r_color c row in
    exists before after,
      rows df = before ++ r :: after /\
      wanted r = true /\
      forall y, In y before -> wanted y = false.
Proof.
  unfold find_product. cbv zeta.
  match goal with
  | |- context [truthy ?im] => remember im as item_match eqn:Em
  end.
  destruct item_match as [[|ch i]|]; cbn [truthy]; try discriminate.
  symmetry in Em.
  destruct (item_match_cases df q (ch :: i) Em) as (Hcol & Hin & Hor);
    [discriminate|].
  rewrite Hcol. intros H.
  exists (ch :: i). split; [reflexivity|]. split; [discriminate|].
  split; [exact Hin|]. split; [exact Hor|]. cbv zeta.
  set (c := first_such (fun c => contains (lower c) (lower q))
              (unique_values r_color df)) in *.
  assert (E : first_such
                (fun row => cell_contains (ch :: i) (r_item row)
                            && text_ok (color_col df) r_color c row)
                (rows df) = Some r).
  { rewrite <- H, <- hd_error_filter. f_equal.
    destruct (color_col df) eqn:Ec.
    - destruct c as [[|c0 c']|]; cbn [truthy andb text_ok].
      + apply filter_ext. intros a. now rewrite andb_true_r.
      + now rewrite filter_filter.
      + apply filter_ext. intros a. now rewrite andb_true_r.
    - cbn [truthy andb].
      apply filter_ext. intros a.
      destruct c as [[|c0 c']|]; cbn [text_ok]; now rewrite andb_true_r. }
  destruct (first_such_first _ _ _ _ E) as (before & after & Hr & Hb).
  exists before, after. split; [exact Hr|].
  split; [now apply first_such_some in E | exact Hb].
Qed.

Lemma find_product_first_match_witness :
  exists r i,
    find_product fallback_df (lit "BLUE JEANS please") = Some r /\
    In i (unique_values r_item fallback_df) /\
    cell_contains i (r_item r) = true.
Proof.
  eexists.
  match goal with
  | |- exists i, find_product ?d ?q = Some ?r /\ _ =>
      assert (E : find_product d q = Some r) by (vm_compute; reflexivity);
      destruct (find_product_first_match d q r E)
        as (i & _ & _ & Hin & _ & before & after & _ & Hw & _)
  end.
  exists i. split; [exact E|]. split; [exact Hin|].
  now apply andb_prop in Hw as [Hw _].
Defined.

(** X12: a text in which the name of a catalog item occurs (letter
    case apart) yields a product, provided no item name is empty and
    the choice is not narrowed by a color: the catalog has no color
    column, or none of its color values, the empty one apart, occurs
    in the text. *)
Theorem find_product_finds (df : Catalog) (q i : text) :
  item_col df = true ->
  ~ In [] (unique_values r_item df) ->
  In i (unique_values r_item df) ->
  contains (lower i) (lower q) = true ->
  (color_col df = false \/
   forall c, In c (unique_values r_color df) -> c <> [] ->
             contains (lower c) (lower q) = false) ->
  exists r, find_product df q = Some r.
Proof.
  intros Hcol Hne Hin Hq Hc. unfold find_product. rewrite Hcol. cbv zeta.
  destruct (first_such (fun i0 => contains (lower i0) (lower q))
              (unique_values r_item df)) as [j|] eqn:Ej.
  2:{ unfold first_such in Ej.
      pose proof (find_none _ _ Ej i Hin) as H. cbn in H. congruence. }
  pose proof (first_such_some _ _ _ _ Ej) as [Hj _].
  destruct j as [|ch j]; [contradiction|].
  cbn [truthy negb andb].
  assert (Hk : (truthy (if color_col df
                        then first_such
                               (fun c => contains (lower c) (lower q))
                               (unique_values r_color df)
                        else None)
                && color_col df) = false).
  { destruct Hc as [->|Hc]; [reflexivity|].
    destruct (color_col df); [|reflexivity]. rewrite andb_true_r.
    destruct (first_such (fun c => contains (lower c) (lower q))
                (unique_values r_color df)) as [[|c0 c]|] eqn:E;
      [reflexivity| |reflexivity].
    apply first_such_some in E as [Hi0 Hc0].
    rewrite (Hc (c0 :: c) Hi0) in Hc0; [discriminate Hc0 | discriminate]. }
  rewrite Hk.
  destruct (unique_values_row df r_item (ch :: j) Hj) as (r & Hr & Er).
  destruct (filter (fun r0 => cell_contains (ch :: j) (r_item r0)) (rows df))
    as [|r0 l] eqn:Ef.
  - assert (Hf : In r (filter (fun r0 => cell_contains (ch :: j) (r_item r0))
                         (rows df))).
    { apply filter_In. split; [exact Hr|]. rewrite Er.
      unfold cell_contains. apply contains_refl. }
    rewrite Ef in Hf. destruct Hf.
  - now exists r0.
Qed.

Lemma find_product_finds_witness :
  exists r, find_product colorless_df (lit "a RED DRESS, please") = Some r.
Proof.
  apply (find_product_finds colorless_df (lit "a RED DRESS, please")
           (lit "Red Dress")).
  - reflexivity.
  - vm_compute. intuition discriminate.
  - vm_compute. tauto.
  - vm_compute. reflexivity.
  - left. reflexivity.
Defined.

(** ** The wording of the results *)

(** X13: the intro of [respond_like_bot] names a budget only when
    there is a direction and the budget is not zero: without a
    direction, without a budget or with the budget 0 the reply is the
    one for no budget at all. *)
Theorem respond_like_bot_generic_intro (df : Catalog) (rs : list Row)
    (i c : option text) (b : option Z) (pt : option direction) :
  pt = None \/ b = None \/ b = Some 0%Z ->
  respond_like_bot df rs i c b pt = respond_like_bot df rs i c None None.
Proof.
  intros [->|[->| ->]]; unfold respond_like_bot; cbn [is_zero negb].
  - reflexivity.
  - now destruct pt as [[]|].
  - now destruct pt as [[]|].
Qed.

Lemma respond_like_bot_generic_intro_witness :
  respond_like_bot fallback_df (rows fallback_df) None None (Some 0%Z)
    (Some less)
  = respond_like_bot fallback_df (rows fallback_df) None None None None.
Proof.
  apply (respond_like_bot_generic_intro fallback_df (rows fallback_df) None
           None (Some 0%Z) (Some less)).
  right; right. reflexivity.
Defined.

(** ** Track Orders *)

(** X14: the order the page shows is the first of the session's
    orders whose id, or whose lowercased item name, occurs in the
    lowercased and stripped query, and its banner goes by its status;
    the page warns that nothing was found exactly when no order
    qualifies; a query that is not empty never gets the greeting. *)
Theorem track_order_first_match (orders : list Order) (u : text) :
  u <> [] ->
  let q := strip (lower u) in
  match track_order orders u with
  | track_details o b =>
      b = banner_of o /\
      (contains (o_id o) q = true \/ contains (lower (o_item o)) q = true) /\
      exists before after,
        orders = before ++ o :: after /\
        forall y, In y before ->
          contains (o_id y) q = false /\
          contains (lower (o_item y)) q = false
  | track_not_found =>
      forall y, In y orders ->
        contains (o_id y) q = false /\ contains (lower (o_item y)) q = false
  | track_greeting => False
  end.
Proof.
  intros Hu. cbv zeta. unfold track_order.
  destruct u as [|ch u]; [congruence|].
  destruct (first_such _ orders) as [o|] eqn:E.
  - split; [reflexivity|].
    pose proof (first_such_some _ _ _ _ E) as [_ Ho].
    split; [now apply orb_prop in Ho|].
    destruct (first_such_first _ _ _ _ E) as (before & after & Hl & Hb).
    exists before, after. split; [exact Hl|].
    intros y Hy. apply orb_false_elim. now apply Hb.
  - intros y Hy. apply orb_false_elim.
    unfold first_such in E. apply (find_none _ _ E y Hy).
Qed.

Lemma track_order_first_match_witness :
  exists o,
    track_order default_orders (lit "Where is my BLUE JEANS order?")
    = track_details o (banner_of o) /\
    o_id o = lit "2356".
Proof.
  pose proof (track_order_first_match default_orders
                (lit "Where is my BLUE JEANS order?")) as H.
  cbv zeta in H.
  destruct (track_order default_orders
              (lit "Where is my BLUE JEANS order?")) as [|o b|] eqn:E;
    [ vm_compute in E; discriminate E | | vm_compute in E; discriminate E ].
  destruct H as (-> & _); [discriminate|].
  exists o. split; [reflexivity|].
  vm_compute in E. injection E as <- _. reflexivity.
Defined.

(** ** Witnesses for the stop phrases, the budget phrases and the
       comparison *)

Lemma stop_phrase_resets_witness :
  generate_reply stable_sorter fallback_df (jeans_context ask_budget)
    (lit "No, THANKS!")
  = mkTurn (Ok farewell) (mkContext None None None None greet) [].
Proof.
  apply (stop_phrase_resets stable_sorter fallback_df
           (jeans_context ask_budget) (lit "No, THANKS!") (lit "no") []
           (lit ", thanks!")).
  - reflexivity.
  - left. reflexivity.
  - repeat split; reflexivity.
Defined.

Lemma compare_products_cases_witness :
  exists h,
    compare_products fallback_df (lit "Blue Jeans vs Red Dress") = Compared h
    /\ product_columns h = 2.
Proof.
  assert (Hu : lit "Blue Jeans vs Red Dress" <> []) by discriminate.
  pose proof (compare_products_cases fallback_df
                (lit "Blue Jeans vs Red Dress") Hu) as H.
  destruct (split vs_or_and (lower (lit "Blue Jeans vs Red Dress")))
    as [|s1 [|s2 l]] eqn:Es;
    [ vm_compute in Es; discriminate Es
    | vm_compute in Es; discriminate Es | ].
  vm_compute in Es. injection Es as <- <- _.
  destruct (find_product fallback_df (strip (lit "blue jeans ")))
    as [p1|] eqn:E1; [|vm_compute in E1; discriminate E1].
  destruct (find_product fallback_df (strip (lit " red dress")))
    as [p2|] eqn:E2; [|vm_compute in E2; discriminate E2].
  destruct (H eq_refl) as (h & Hh & Hn).
  exists h. split; [exact Hh|]. apply Hn.
  vm_compute in E1. vm_compute in E2.
  injection E1 as <-. injection E2 as <-. vm_compute. discriminate.
Defined.

Lemma budget_turn_budget_witness :
  searches (generate_reply stable_sorter fallback_df initial_context
              (lit "Anything ABOVE $30?"))
  = [mkCall None None (Some 30%Z) (Some more)].
Proof.
  assert (H1 : is_stop (strip (lower (lit "Anything ABOVE $30?"))) = false)
    by (vm_compute; reflexivity).
  assert (H2 : has_budget_phrase (strip (lower (lit "Anything ABOVE $30?")))
               = true)
    by (vm_compute; reflexivity).
  destruct (budget_turn_budget stable_sorter fallback_df initial_context
              (lit "Anything ABOVE $30?") H1 H2)
    as [(n & d & Hb & Hp & Hs)|[Hr _]].
  - rewrite Hs. vm_compute in Hb. vm_compute in Hp.
    injection Hb as <-. injection Hp as <-. reflexivity.
  - vm_compute in Hr. discriminate Hr.
Defined.
